(** * MedBook reservation engine

    A shallow embedding of the PostgreSQL side of MedBook's booking core:
    the tables of [backend/supabase/001_schema.sql] and the four PL/pgSQL
    functions of [backend/supabase/002_functions.sql] ([book_slot],
    [confirm_booking], [cancel_booking], [expire_pending_bookings]),
    together with [BookingService.create] of
    [backend/src/services/bookingService.js].

    Tables are lists of rows.  A PL/pgSQL body is a computation over the
    database that either returns a value with the new database or raises
    an SQLSTATE condition; a [BEGIN ... EXCEPTION] block runs its handler
    on the database as it was when the block was entered.  One call of a
    function is one transaction. *)

From Stdlib Require Import ZArith NArith List Bool Lia String.
Import ListNotations.
Local Open Scope Z_scope.

(** ** Column types *)

(** UUID values. *)
Definition UUID := N.

(** TIMESTAMPTZ values, in microseconds. *)
Definition timestamptz := Z.

(** INTERVAL '2 minutes'. *)
Definition INTERVAL_2_minutes : Z := 120000000.

(** CREATE TYPE booking_status AS ENUM (...) *)
Inductive booking_status : Type :=
| PENDING
| CONFIRMED
| FAILED
| CANCELLED.

Definition booking_status_eqb (a b : booking_status) : bool :=
  match a, b with
  | PENDING, PENDING | CONFIRMED, CONFIRMED
  | FAILED, FAILED | CANCELLED, CANCELLED => true
  | _, _ => false
  end.

Definition booking_status_text (s : booking_status) : string :=
  match s with
  | PENDING => "PENDING"
  | CONFIRMED => "CONFIRMED"
  | FAILED => "FAILED"
  | CANCELLED => "CANCELLED"
  end.

(** ** Rows *)

(** The columns of [doctors] that the booking functions read. *)
Record doctor : Type := mkDoctor {
  d_id : UUID;
  d_name : string
}.

(** A row of [slots].  [is_available] is never written as NULL. *)
Record slot : Type := mkSlot {
  s_id : UUID;
  s_doctor_id : UUID;
  s_start_time : timestamptz;
  s_end_time : timestamptz;
  s_is_available : bool;
  s_created_at : timestamptz
}.

(** A row of [bookings].  The optional columns are the nullable ones the
    functions leave or set NULL; [status] is never written as NULL. *)
Record booking : Type := mkBooking {
  b_id : UUID;
  b_user_id : UUID;
  b_slot_id : UUID;
  b_doctor_id : UUID;
  b_status : booking_status;
  b_notes : option string;
  b_expires_at : option timestamptz;
  b_confirmed_at : option timestamptz;
  b_cancelled_at : option timestamptz;
  b_created_at : timestamptz;
  b_updated_at : timestamptz
}.

(** The database: the primary keys of [users] and the three tables the
    functions touch. *)
Record database : Type := mkDatabase {
  users : list UUID;
  doctors : list doctor;
  slots : list slot;
  bookings : list booking
}.

Definition with_slots (db : database) (l : list slot) : database :=
  mkDatabase (users db) (doctors db) l (bookings db).

Definition with_bookings (db : database) (l : list booking) : database :=
  mkDatabase (users db) (doctors db) (slots db) l.

(** ** SQL three-valued comparison *)

(** [a < b] on nullable timestamps: NULL when an operand is NULL. *)
Definition timestamptz_lt (a b : option timestamptz) : option bool :=
  match a, b with
  | Some x, Some y => Some (x <? y)
  | _, _ => None
  end.

(** A WHERE clause or an IF keeps a row, or takes the branch, only when
    the condition is true: NULL counts as not true. *)
Definition is_true (c : option bool) : bool :=
  match c with
  | Some true => true
  | _ => false
  end.

(** ** PL/pgSQL computations *)

(** The conditions the functions can meet. *)
Inductive sqlstate : Type :=
| lock_not_available
| unique_violation
| foreign_key_violation.

Definition plpgsql (A : Type) : Type := database -> (A * database) + sqlstate.

Definition ret {A} (a : A) : plpgsql A := fun db => inl (a, db).

Definition raise {A} (e : sqlstate) : plpgsql A := fun _ => inr e.

Definition bind {A B} (m : plpgsql A) (k : A -> plpgsql B) : plpgsql B :=
  fun db =>
    match m db with
    | inl (a, db') => k a db'
    | inr e => inr e
    end.

Declare Scope plpgsql_scope.
Delimit Scope plpgsql_scope with plpgsql.
Notation "x <- m ;; k" := (bind m (fun x => k))
  (at level 61, m at next level, right associativity) : plpgsql_scope.
Notation "m ;; k" := (bind m (fun _ => k))
  (at level 61, right associativity) : plpgsql_scope.
Local Open Scope plpgsql_scope.

(** [BEGIN body EXCEPTION WHEN ... END]: when [body] raises a condition
    the handler names, everything the block did is rolled back and the
    handler runs; any other condition leaves the block. *)
Definition begin_exception {A} (body : plpgsql A)
    (handler : sqlstate -> option (plpgsql A)) : plpgsql A :=
  fun db =>
    match body db with
    | inl r => inl r
    | inr e =>
        match handler e with
        | Some h => h db
        | None => inr e
        end
    end.

(** What the caller of [SELECT f(...)] sees: the committed database and
    the value, or the unchanged database and the condition. *)
Inductive outcome (A : Type) : Type :=
| Returned (a : A)
| Raised (e : sqlstate).
Arguments Returned {A} a.
Arguments Raised {A} e.

Definition call {A} (m : plpgsql A) (db : database) : database * outcome A :=
  match m db with
  | inl (a, db') => (db', Returned a)
  | inr e => (db, Raised e)
  end.

(** ** JSONB results *)

Inductive error_code : Type :=
| SLOT_UNAVAILABLE
| SLOT_LOCKED
| SLOT_ALREADY_BOOKED
| BOOKING_NOT_FOUND
| INVALID_STATUS
| BOOKING_EXPIRED.

(** [{'success': true, ...}] with its payload, or
    [{'success': false, 'error': ..., 'message': ...}]. *)
Inductive jsonb (A : Type) : Type :=
| success (payload : A)
| failure (error : error_code) (message : string).
Arguments success {A} payload.
Arguments failure {A} error message.

(** The ['booking'] object [book_slot] returns. *)
Record booking_json : Type := mkBookingJson {
  j_id : UUID;
  j_slot_id : UUID;
  j_doctor_id : UUID;
  j_doctor_name : string;
  j_start_time : timestamptz;
  j_end_time : timestamptz;
  j_status : booking_status;
  j_expires_at : option timestamptz;
  j_created_at : timestamptz
}.

(** ** Statements *)

(** [UPDATE t SET ... WHERE cond]: every row that satisfies [cond] is
    replaced, the others stay, the order of rows is kept. *)
Definition update_where {R} (cond : R -> bool) (set : R -> R) (t : list R)
    : list R :=
  map (fun r => if cond r then set r else r) t.

Definition set_is_available (v : bool) (s : slot) : slot :=
  mkSlot (s_id s) (s_doctor_id s) (s_start_time s) (s_end_time s) v
         (s_created_at s).

(** [UPDATE slots SET is_available = v WHERE id = p_slot_id] *)
Definition update_slots_is_available (v : bool) (p_slot_id : UUID)
    : plpgsql unit :=
  fun db =>
    inl (tt, with_slots db
               (update_where (fun s => N.eqb (s_id s) p_slot_id)
                             (set_is_available v) (slots db))).

(** [slots s JOIN doctors d ON s.doctor_id = d.id] *)
Definition slots_join_doctors (db : database) : list (slot * doctor) :=
  flat_map
    (fun s =>
       map (fun d => (s, d))
           (filter (fun d => N.eqb (s_doctor_id s) (d_id d)) (doctors db)))
    (slots db).

(** [SELECT s.*, d.name INTO v_slot FROM slots s JOIN doctors d ...
     WHERE s.id = p_slot_id AND s.is_available = true
     FOR UPDATE OF s NOWAIT]: the first row that qualifies, NOT FOUND when
    there is none, [lock_not_available] when another transaction holds the
    lock of that slot row.  [locked] lists the slot rows locked by other
    transactions. *)
Definition select_slot_for_update_nowait (locked : list UUID)
    (p_slot_id : UUID) : plpgsql (option (slot * doctor)) :=
  fun db =>
    match find (fun sd => N.eqb (s_id (fst sd)) p_slot_id
                          && s_is_available (fst sd))
               (slots_join_doctors db) with
    | None => ret None db
    | Some sd =>
        if existsb (N.eqb (s_id (fst sd))) locked
        then raise lock_not_available db
        else ret (Some sd) db
    end.

(** [INSERT INTO bookings ... RETURNING *].  The index checks come first:
    the primary key [id] and [CONSTRAINT unique_active_booking UNIQUE
    (slot_id)], which covers every row of the table whatever its status.
    The foreign keys are checked when the statement ends. *)
Definition insert_into_bookings (b : booking) : plpgsql booking :=
  fun db =>
    if existsb (fun r => N.eqb (b_id r) (b_id b)) (bookings db)
       || existsb (fun r => N.eqb (b_slot_id r) (b_slot_id b)) (bookings db)
    then raise unique_violation db
    else if existsb (N.eqb (b_user_id b)) (users db)
            && existsb (fun s => N.eqb (s_id s) (b_slot_id b)) (slots db)
            && existsb (fun d => N.eqb (d_id d) (b_doctor_id b)) (doctors db)
    then ret b (with_bookings db (bookings db ++ [b]))
    else raise foreign_key_violation db.

(** ** book_slot *)

(** The messages of the results. *)
Definition msg_unavailable : string := "This slot is no longer available".
Definition msg_locked : string :=
  "Another user is booking this slot. Please try again in a moment.".
Definition msg_already_booked : string :=
  "This slot was just booked by another user.".
Definition msg_expired : string :=
  "Booking has expired. Please try booking again.".

(** The row [book_slot] inserts: the five columns of its VALUES list,
    [id], [created_at] and [updated_at] from their defaults, the other
    columns NULL. *)
Definition new_booking (new_id : UUID) (now : timestamptz)
    (p_user_id p_slot_id v_doctor_id : UUID) : booking :=
  mkBooking new_id p_user_id p_slot_id v_doctor_id PENDING None
            (Some (now + INTERVAL_2_minutes)) None None now now.

Section BookSlot.

(** The slot rows locked by other transactions, the value
    [uuid_generate_v4()] draws for the new row, and [NOW()]. *)
Variable locked : list UUID.
Variable new_id : UUID.
Variable now : timestamptz.

Definition book_slot (p_user_id p_slot_id : UUID)
    : plpgsql (jsonb booking_json) :=
  begin_exception
    (v <- select_slot_for_update_nowait locked p_slot_id ;;
     match v with
     | None =>
         ret (failure SLOT_UNAVAILABLE msg_unavailable)
     | Some (v_slot, d) =>
         let v_doctor_id := s_doctor_id v_slot in
         v_booking <- insert_into_bookings
           (new_booking new_id now p_user_id p_slot_id v_doctor_id) ;;
         update_slots_is_available false p_slot_id ;;
         ret (success
                (mkBookingJson (b_id v_booking) (b_slot_id v_booking)
                               (b_doctor_id v_booking) (d_name d)
                               (s_start_time v_slot) (s_end_time v_slot)
                               (b_status v_booking)
                               (b_expires_at v_booking)
                               (b_created_at v_booking)))
     end)
    (fun e =>
       match e with
       | lock_not_available =>
           Some (ret (failure SLOT_LOCKED msg_locked))
       | unique_violation =>
           Some (ret (failure SLOT_ALREADY_BOOKED msg_already_booked))
       | _ => None
       end).

End BookSlot.

(** ** confirm_booking and cancel_booking *)

(** [SELECT * INTO v_booking FROM bookings
     WHERE id = p_booking_id AND user_id = p_user_id FOR UPDATE] *)
Definition select_booking_for_update (p_booking_id p_user_id : UUID)
    : plpgsql (option booking) :=
  fun db =>
    inl (find (fun b => N.eqb (b_id b) p_booking_id
                        && N.eqb (b_user_id b) p_user_id)
              (bookings db), db).

(** The trigger [update_bookings_updated_at]: BEFORE UPDATE on a row of
    [bookings], [NEW.updated_at = NOW()]. *)
Definition update_updated_at_column (now : timestamptz) (b : booking)
    : booking :=
  mkBooking (b_id b) (b_user_id b) (b_slot_id b) (b_doctor_id b)
            (b_status b) (b_notes b) (b_expires_at b) (b_confirmed_at b)
            (b_cancelled_at b) (b_created_at b) now.

(** [SET status = 'FAILED'] *)
Definition set_failed (b : booking) : booking :=
  mkBooking (b_id b) (b_user_id b) (b_slot_id b) (b_doctor_id b)
            FAILED (b_notes b) (b_expires_at b) (b_confirmed_at b)
            (b_cancelled_at b) (b_created_at b) (b_updated_at b).

(** [SET status = 'CONFIRMED', confirmed_at = NOW(), expires_at = NULL] *)
Definition set_confirmed (now : timestamptz) (b : booking) : booking :=
  mkBooking (b_id b) (b_user_id b) (b_slot_id b) (b_doctor_id b)
            CONFIRMED (b_notes b) None (Some now)
            (b_cancelled_at b) (b_created_at b) (b_updated_at b).

(** [SET status = 'CANCELLED', cancelled_at = NOW()] *)
Definition set_cancelled (now : timestamptz) (b : booking) : booking :=
  mkBooking (b_id b) (b_user_id b) (b_slot_id b) (b_doctor_id b)
            CANCELLED (b_notes b) (b_expires_at b) (b_confirmed_at b)
            (Some now) (b_created_at b) (b_updated_at b).

(** [UPDATE bookings SET ... WHERE id = p_booking_id], trigger included. *)
Definition update_bookings (now : timestamptz) (set : booking -> booking)
    (p_booking_id : UUID) : plpgsql unit :=
  fun db =>
    inl (tt, with_bookings db
               (update_where (fun b => N.eqb (b_id b) p_booking_id)
                             (fun b => update_updated_at_column now (set b))
                             (bookings db))).

Section StateMachine.

Variable now : timestamptz.

Definition confirm_booking (p_user_id p_booking_id : UUID)
    : plpgsql (jsonb string) :=
  v <- select_booking_for_update p_booking_id p_user_id ;;
  match v with
  | None => ret (failure BOOKING_NOT_FOUND "Booking not found")
  | Some v_booking =>
      if negb (booking_status_eqb (b_status v_booking) PENDING)
      then ret (failure INVALID_STATUS
                  (String.append "Booking cannot be confirmed. Current status: "
                     (booking_status_text (b_status v_booking))))
      else if is_true (timestamptz_lt (b_expires_at v_booking) (Some now))
      then
        update_bookings now set_failed p_booking_id ;;
        update_slots_is_available true (b_slot_id v_booking) ;;
        ret (failure BOOKING_EXPIRED msg_expired)
      else
        update_bookings now (set_confirmed now) p_booking_id ;;
        ret (success "Booking confirmed successfully"%string)
  end.

Definition cancel_booking (p_user_id p_booking_id : UUID)
    : plpgsql (jsonb string) :=
  v <- select_booking_for_update p_booking_id p_user_id ;;
  match v with
  | None => ret (failure BOOKING_NOT_FOUND "Booking not found")
  | Some v_booking =>
      if negb (booking_status_eqb (b_status v_booking) PENDING
               || booking_status_eqb (b_status v_booking) CONFIRMED)
      then ret (failure INVALID_STATUS
                  (String.append "Booking cannot be cancelled. Current status: "
                     (booking_status_text (b_status v_booking))))
      else
        update_bookings now (set_cancelled now) p_booking_id ;;
        update_slots_is_available true (b_slot_id v_booking) ;;
        ret (success "Booking cancelled successfully"%string)
  end.

(** ** expire_pending_bookings *)

(** [a AND b] in three-valued logic. *)
Definition sql_and (a b : option bool) : option bool :=
  match a, b with
  | Some false, _ | _, Some false => Some false
  | Some true, Some true => Some true
  | _, _ => None
  end.

(** [WHERE status = 'PENDING' AND expires_at < NOW()] *)
Definition pending_and_expired (b : booking) : bool :=
  is_true (sql_and (Some (booking_status_eqb (b_status b) PENDING))
                   (timestamptz_lt (b_expires_at b) (Some now))).

(** The CTE [expired]: the [slot_id] of every row its UPDATE touched. *)
Definition expired (db : database) : list UUID :=
  map b_slot_id (filter pending_and_expired (bookings db)).

(** [WHERE id IN (SELECT slot_id FROM expired)] *)
Definition in_expired (db : database) (s : slot) : bool :=
  existsb (N.eqb (s_id s)) (expired db).

(** The statement updates [bookings] in the CTE and [slots] in its main
    query; ROW_COUNT is the number of rows the main query updated. *)
Definition expire_pending_bookings : plpgsql Z :=
  fun db =>
    let v_expired_count :=
      Z.of_nat (List.length (filter (in_expired db) (slots db))) in
    inl (v_expired_count,
         mkDatabase (users db) (doctors db)
           (update_where (in_expired db) (set_is_available true) (slots db))
           (update_where pending_and_expired
              (fun b => update_updated_at_column now (set_failed b))
              (bookings db))).

End StateMachine.

(** ** BookingService.create *)

(** What [create] throws: an [ApiError] with its status code, or the
    error [pool.query] rejects with. *)
Inductive thrown : Type :=
| ApiError (statusCode : Z) (message : string)
| DatabaseError (code : sqlstate).

Definition conflict (message : string) : thrown := ApiError 409 message.
Definition badRequest (message : string) : thrown := ApiError 400 message.

Definition create (locked : list UUID) (new_id : UUID) (now : timestamptz)
    (userId slotId : UUID) (db : database)
    : database * (thrown + booking_json) :=
  match call (book_slot locked new_id now userId slotId) db with
  | (db', Raised e) => (db', inl (DatabaseError e))
  | (db', Returned (failure error message)) =>
      match error with
      | SLOT_UNAVAILABLE => (db', inl (conflict message))
      | SLOT_LOCKED => (db', inl (conflict message))
      | SLOT_ALREADY_BOOKED => (db', inl (conflict message))
      | _ => (db', inl (badRequest message))
      end
  | (db', Returned (success b)) => (db', inr b)
  end.

(** ** Executions *)

(** One call of one of the four operations, with everything it reads
    from its environment. *)
Inductive operation : Type :=
| reserve (locked : list UUID) (new_id : UUID) (now : timestamptz)
          (requesterId slotId : UUID)
| confirm (now : timestamptz) (requesterId reservationId : UUID)
| cancel (now : timestamptz) (requesterId reservationId : UUID)
| sweepExpired (now : timestamptz).

(** The database an operation commits. *)
Definition step (db : database) (op : operation) : database :=
  match op with
  | reserve locked new_id now u s =>
      fst (call (book_slot locked new_id now u s) db)
  | confirm now u b => fst (call (confirm_booking now u b) db)
  | cancel now u b => fst (call (cancel_booking now u b) db)
  | sweepExpired now => fst (call (expire_pending_bookings now) db)
  end.

Definition run (db : database) (ops : list operation) : database :=
  fold_left step ops db.

(** ** Constraints and invariants *)

(** [bookings.id] is the primary key. *)
Definition bookings_pkey (db : database) : Prop :=
  NoDup (map b_id (bookings db)).

(** [CONSTRAINT unique_active_booking UNIQUE (slot_id)] *)
Definition unique_active_booking (db : database) : Prop :=
  NoDup (map b_slot_id (bookings db)).

(** PENDING or CONFIRMED. *)
Definition active (b : booking) : bool :=
  booking_status_eqb (b_status b) PENDING
  || booking_status_eqb (b_status b) CONFIRMED.

(** A slot is available exactly when no booking on it is active. *)
Definition availability_invariant (db : database) : Prop :=
  forall s, In s (slots db) ->
    (s_is_available s = true <->
     forall b, In b (bookings db) -> b_slot_id b = s_id s -> active b = false).

(** A confirmed booking has no [expires_at]. *)
Definition confirmed_without_expiry (db : database) : Prop :=
  forall b, In b (bookings db) ->
    b_status b = CONFIRMED -> b_expires_at b = None.

(** ** Readings of a database and of a result *)

(** The three results of [book_slot] that say the slot is gone. *)
Definition reserve_error (e : error_code) : bool :=
  match e with
  | SLOT_UNAVAILABLE | SLOT_LOCKED | SLOT_ALREADY_BOOKED => true
  | _ => false
  end.

(** [availability_invariant] as a test. *)
Definition availability_check (db : database) : bool :=
  forallb
    (fun s =>
       Bool.eqb (s_is_available s)
         (forallb (fun b => negb (N.eqb (b_slot_id b) (s_id s) && active b))
                  (bookings db)))
    (slots db).

(** Every row of [bookings] with this [id] has this status, and there is
    one. *)
Definition booking_has_status (db : database) (id : UUID)
    (st : booking_status) : Prop :=
  (exists b, In b (bookings db) /\ b_id b = id) /\
  forall b, In b (bookings db) -> b_id b = id -> b_status b = st.

(** Every row of [slots] with this [id] has this flag. *)
Definition slot_is_available (db : database) (sid : UUID) (v : bool) : Prop :=
  forall s, In s (slots db) -> s_id s = sid -> s_is_available s = v.

(** The call of [confirm_booking] answers [success]. *)
Definition confirm_succeeds (now : timestamptz) (u id : UUID)
    (db : database) : Prop :=
  exists payload,
    snd (call (confirm_booking now u id) db) = Returned (success payload).

(** The deadline as [confirm_booking] tests it: [expires_at < NOW()] is
    not true. *)
Definition not_past_deadline (now : timestamptz) (b : booking) : Prop :=
  forall e, b_expires_at b = Some e -> now <= e.

(** The condition of confirm in the words of the specification: the
    reservation belongs to the requester, is PENDING, and
    [now < expires_at]. *)
Definition spec_confirm_valid (now : timestamptz) (u id : UUID)
    (db : database) : Prop :=
  exists b e, In b (bookings db) /\ b_id b = id /\ b_user_id b = u /\
              b_status b = PENDING /\ b_expires_at b = Some e /\ now < e.

(** The invariant on [expires_at] in the words of the specification: it
    is set only while PENDING. *)
Definition spec_expires_only_while_pending (db : database) : Prop :=
  forall b, In b (bookings db) ->
    b_expires_at b <> None -> b_status b = PENDING.

(** ** The rest of the schema and of the booking life cycle *)

(** [slots.id] is the primary key. *)
Definition slots_pkey (db : database) : Prop :=
  NoDup (map s_id (slots db)).

(** The foreign keys of [bookings]: [slot_id], [doctor_id] and [user_id]
    name rows that exist. *)
Definition bookings_fkeys (db : database) : Prop :=
  forall b, In b (bookings db) ->
    In (b_slot_id b) (map s_id (slots db)) /\
    In (b_doctor_id b) (map d_id (doctors db)) /\
    In (b_user_id b) (users db).

(** The moves of [status] the four functions make: PENDING to any
    status, CONFIRMED to CANCELLED, and every status to itself. *)
Definition transition (a b : booking_status) : bool :=
  match a, b with
  | PENDING, _ => true
  | CONFIRMED, CONFIRMED | CONFIRMED, CANCELLED => true
  | FAILED, FAILED => true
  | CANCELLED, CANCELLED => true
  | _, _ => false
  end.

(** The columns of a booking no function writes after the INSERT. *)
Definition inserted_columns (b : booking)
    : UUID * UUID * UUID * UUID * option string * timestamptz :=
  (b_id b, b_user_id b, b_slot_id b, b_doctor_id b, b_notes b, b_created_at b).

(** The deadline of a PENDING booking is its creation time plus the two
    minutes. *)
Definition pending_expires_after_window (db : database) : Prop :=
  forall b, In b (bookings db) -> b_status b = PENDING ->
    b_expires_at b = Some (b_created_at b + INTERVAL_2_minutes).

(** The call of [book_slot] answers [success]. *)
Definition reserve_succeeds (locked : list UUID) (new_id : UUID)
    (now : timestamptz) (u S : UUID) (db : database) : Prop :=
  exists db' bk,
    call (book_slot locked new_id now u S) db = (db', Returned (success bk)).

(** ** A schedule with one slot *)

Module Scenario.

Definition seconds (n : Z) : Z := n * 1000000.

Definition requesterA : UUID := 1%N.
Definition requesterB : UUID := 2%N.
Definition provider : UUID := 10%N.
Definition slotS : UUID := 100%N.
Definition reservationA : UUID := 1000%N.
Definition reservationB : UUID := 1001%N.

(** The time of the first call. *)
Definition t : timestamptz := seconds 1700000000.

(** Slot S is available and nobody has booked anything. *)
Definition schedule : database :=
  mkDatabase [requesterA; requesterB]
             [mkDoctor provider "Dr. Sarah Johnson"]
             [mkSlot slotS provider (t + seconds 3600) (t + seconds 5400)
                     true 0]
             [].

(** A reserves S at [t]. *)
Definition reserved : database :=
  step schedule (reserve [] reservationA t requesterA slotS).

(** No confirm occurs and the sweeper runs at [t + 121s]. *)
Definition swept : database :=
  step reserved (sweepExpired (t + seconds 121)).

(** What A's reserve returns. *)
Definition reservationA_json : booking_json :=
  mkBookingJson reservationA slotS provider "Dr. Sarah Johnson"
                (t + seconds 3600) (t + seconds 5400) PENDING
                (Some (t + seconds 120)) t.

(** A confirms at [t + 60s]. *)
Definition confirmed : database :=
  step reserved (confirm (t + seconds 60) requesterA reservationA).

End Scenario.

(** ** The rest of bookingService.js *)

Definition notFound (message : string) : thrown := ApiError 404 message.

(** A row of [bookings b JOIN slots s ON b.slot_id = s.id JOIN doctors d
    ON b.doctor_id = d.id JOIN users u ON b.user_id = u.id], kept as the
    four rows it is made of; the SELECT list of [getById] projects
    columns out of them. *)
Record booking_row : Type := mkBookingRow {
  r_booking : booking;
  r_slot : slot;
  r_doctor : doctor;
  r_user : UUID
}.

Definition bookings_join (db : database) : list booking_row :=
  flat_map
    (fun b =>
       flat_map
         (fun s =>
            flat_map
              (fun d =>
                 map (fun u => mkBookingRow b s d u)
                     (filter (fun u => N.eqb (b_user_id b) u) (users db)))
              (filter (fun d => N.eqb (b_doctor_id b) (d_id d)) (doctors db)))
         (filter (fun s => N.eqb (b_slot_id b) (s_id s)) (slots db)))
    (bookings db).

Module BookingService.

(** [WHERE b.id = $1], and [AND b.user_id = $2] unless [isAdmin]; the
    first row, or notFound when there is none. *)
Definition getById (userId bookingId : UUID) (isAdmin : bool)
    (db : database) : thrown + booking_row :=
  match filter (fun r => N.eqb (b_id (r_booking r)) bookingId
                         && (isAdmin
                             || N.eqb (b_user_id (r_booking r)) userId))
               (bookings_join db) with
  | [] => inl (notFound "Booking not found")
  | r :: _ => inr r
  end.

(** [confirm]: the call of [confirm_booking], its errors as ApiErrors,
    and on success the booking fetched again. *)
Definition confirm (now : timestamptz) (userId bookingId : UUID)
    (db : database) : database * (thrown + booking_row) :=
  match call (confirm_booking now userId bookingId) db with
  | (db', Raised e) => (db', inl (DatabaseError e))
  | (db', Returned (failure error message)) =>
      match error with
      | BOOKING_NOT_FOUND => (db', inl (notFound message))
      | BOOKING_EXPIRED => (db', inl (conflict message))
      | _ => (db', inl (badRequest message))
      end
  | (db', Returned (success _)) => (db', getById userId bookingId false db')
  end.

(** [cancel]: the call of [cancel_booking]; it returns the message. *)
Definition cancel (now : timestamptz) (userId bookingId : UUID)
    (db : database) : database * (thrown + string) :=
  match call (cancel_booking now userId bookingId) db with
  | (db', Raised e) => (db', inl (DatabaseError e))
  | (db', Returned (failure error message)) =>
      match error with
      | BOOKING_NOT_FOUND => (db', inl (notFound message))
      | _ => (db', inl (badRequest message))
      end
  | (db', Returned (success message)) => (db', inr message)
  end.

End BookingService.

(** ** slotService.js *)

(** The queries of one call of a service run one after the other, with
    no other transaction in between. *)

Module SlotService.

(** What a call gives: the value it resolves to, the ApiError it throws,
    or the error [pool.query] rejects with, by its SQLSTATE code. *)
Inductive result (A : Type) : Type :=
| resolved (a : A)
| rejected (statusCode : Z) (message : string)
| query_error (code : string).
Arguments resolved {A} a.
Arguments rejected {A} statusCode message.
Arguments query_error {A} code.

(** The WHERE clause of the overlap check, [$2] the new start and [$3]
    the new end:
    [(start_time <= $2 AND end_time > $2) OR
     (start_time < $3 AND end_time >= $3) OR
     (start_time >= $2 AND end_time <= $3)] *)
Definition overlaps (s : slot) (start_time end_time : timestamptz) : bool :=
  ((s_start_time s <=? start_time) && (s_end_time s >? start_time))
  || ((s_start_time s <? end_time) && (s_end_time s >=? end_time))
  || ((s_start_time s >=? start_time) && (s_end_time s <=? end_time)).

(** [INSERT INTO slots ... RETURNING *]: first
    [CONSTRAINT valid_time_range CHECK (end_time > start_time)] (23514),
    then the primary key and [CONSTRAINT unique_doctor_slot UNIQUE
    (doctor_id, start_time)] (23505), then the foreign key to doctors
    (23503). *)
Definition insert_into_slots (s : slot) (db : database) : database + string :=
  if negb (s_end_time s >? s_start_time s) then inr "23514"%string
  else if existsb (fun r => N.eqb (s_id r) (s_id s)) (slots db)
          || existsb (fun r => N.eqb (s_doctor_id r) (s_doctor_id s)
                               && (s_start_time r =? s_start_time s))
                     (slots db)
  then inr "23505"%string
  else if negb (existsb (fun d => N.eqb (d_id d) (s_doctor_id s)) (doctors db))
  then inr "23503"%string
  else inl (with_slots db (slots db ++ [s])).

Section Create.

(** The column [is_active] of doctors, by doctor id; the value
    [uuid_generate_v4()] draws; [NOW()]. *)
Variable is_active : UUID -> bool.
Variable new_id : UUID.
Variable now : timestamptz.

Definition create (doctor_id : UUID) (start_time end_time : timestamptz)
    (db : database) : database * result slot :=
  match filter (fun d => N.eqb (d_id d) doctor_id && is_active (d_id d))
               (doctors db) with
  | [] => (db, rejected 404 "Doctor not found")
  | _ :: _ =>
      match filter (fun s => N.eqb (s_doctor_id s) doctor_id
                             && overlaps s start_time end_time)
                   (slots db) with
      | _ :: _ => (db, rejected 409 "Slot overlaps with existing slot")
      | [] =>
          let row := mkSlot new_id doctor_id start_time end_time true now in
          match insert_into_slots row db with
          | inl db' => (db', resolved row)
          | inr code => (db, query_error code)
          end
      end
  end.

End Create.

Section CreateBulk.

(** The column [is_active] of doctors; what PostgreSQL reads from a text
    parameter as a TIMESTAMPTZ, the value or the SQLSTATE code of its
    error; the id and [NOW()] of the INSERT of each round of the loop. *)
Variable is_active : UUID -> bool.
Variable timestamptz_in : string -> timestamptz + string.
Variable draw : nat -> UUID * timestamptz.




End CreateBulk.


(** [delete]: refused while a PENDING or CONFIRMED booking names the
    slot; [DELETE FROM slots WHERE id = $1] takes the bookings of the
    slot with it (ON DELETE CASCADE); notFound when no row was
    deleted. *)
Definition delete (id : UUID) (db : database) : database * result string :=
  match filter (fun b => N.eqb (b_slot_id b) id && active b) (bookings db) with
  | _ :: _ => (db, rejected 409 "Cannot delete slot with active bookings")
  | [] =>
      match filter (fun s => N.eqb (s_id s) id) (slots db) with
      | [] => (db, rejected 404 "Slot not found")
      | _ :: _ =>
          (mkDatabase (users db) (doctors db)
             (filter (fun s => negb (N.eqb (s_id s) id)) (slots db))
             (filter (fun b => negb (N.eqb (b_slot_id b) id)) (bookings db)),
           resolved "Slot deleted successfully"%string)
      end
  end.

End SlotService.

(** ** DoctorService.delete *)

Module DoctorService.

(** [DELETE FROM doctors WHERE id = $1 RETURNING id]: the slots of the
    doctor go with it, and so do the bookings that name the doctor or
    one of those slots (ON DELETE CASCADE); notFound when no row was
    deleted. *)
Definition delete (id : UUID) (db : database)
    : database * SlotService.result string :=
  match filter (fun d => N.eqb (d_id d) id) (doctors db) with
  | [] => (db, SlotService.rejected 404 "Doctor not found")
  | _ :: _ =>
      (mkDatabase (users db)
         (filter (fun d => negb (N.eqb (d_id d) id)) (doctors db))
         (filter (fun s => negb (N.eqb (s_doctor_id s) id)) (slots db))
         (filter
            (fun b =>
               negb (N.eqb (b_doctor_id b) id)
               && negb (existsb (fun s => N.eqb (s_id s) (b_slot_id b)
                                          && N.eqb (s_doctor_id s) id)
                                (slots db)))
            (bookings db)),
       SlotService.resolved "Doctor deleted successfully"%string)
  end.

End DoctorService.

(** The three errors of [book_slot], each with the condition under
    which the function answers it. *)
Definition slot_open (S : UUID) (db : database) : Prop :=
  exists s d, In s (slots db) /\ In d (doctors db) /\ s_id s = S /\
              s_is_available s = true /\ s_doctor_id s = d_id d.

Definition reserve_fails_with (locked : list UUID) (new_id : UUID)
    (now : timestamptz) (u S : UUID) (db : database) (e : error_code) : Prop :=
  exists msg,
    call (book_slot locked new_id now u S) db = (db, Returned (failure e msg)).

(** The [doctor_id] of a booking is the [doctor_id] of its slot. *)
Definition doctor_id_of_slot (db : database) : Prop :=
  forall b s, In b (bookings db) -> In s (slots db) ->
    b_slot_id b = s_id s -> b_doctor_id b = s_doctor_id s.




(** ** A bulk request *)

Module Clinic.






End Clinic.

(** * Properties *)

(** ** Tables *)

Lemma booking_status_eqb_eq (a b : booking_status) :
  booking_status_eqb a b = true <-> a = b.
Proof. destruct a, b; simpl; split; congruence. Qed.

Lemma in_update_where {R} (cond : R -> bool) (set : R -> R) (t : list R) r' :
  In r' (update_where cond set t) <->
  exists r, In r t /\ r' = if cond r then set r else r.
Proof.
  unfold update_where. rewrite in_map_iff.
  split; intros [r [H1 H2]]; exists r; auto.
Qed.

Lemma map_update_where {R K} (key : R -> K) cond set (t : list R) :
  (forall r, key (set r) = key r) ->
  map key (update_where cond set t) = map key t.
Proof.
  intros Hkey. unfold update_where. rewrite map_map.
  apply map_ext. intros r. destruct (cond r); auto.
Qed.

Lemma update_where_none {R} (cond : R -> bool) set (t : list R) :
  (forall r, In r t -> cond r = false) -> update_where cond set t = t.
Proof.
  induction t as [|r t IH]; simpl; intros H; [reflexivity|].
  rewrite (H r (or_introl eq_refl)). f_equal. apply IH.
  intros r' Hr'. apply H. now right.
Qed.

Lemma filter_none {R} (cond : R -> bool) (t : list R) :
  (forall r, In r t -> cond r = false) -> filter cond t = [].
Proof.
  induction t as [|r t IH]; simpl; intros H; [reflexivity|].
  rewrite (H r (or_introl eq_refl)). apply IH.
  intros r' Hr'. apply H. now right.
Qed.

(** Rows of a table with a unique key are told apart by the key. *)
Lemma unique_key {R} (key : R -> UUID) (t : list R) r1 r2 :
  NoDup (map key t) -> In r1 t -> In r2 t -> key r1 = key r2 -> r1 = r2.
Proof.
  induction t as [|r t IH]; simpl; [tauto|].
  intros Hnd [H1|H1] [H2|H2] Hk; inversion Hnd as [|? ? Hnotin Hnd']; subst.
  - reflexivity.
  - exfalso. apply Hnotin. rewrite Hk. now apply in_map.
  - exfalso. apply Hnotin. rewrite <- Hk. now apply in_map.
  - now apply IH.
Qed.

Lemma existsb_key {R} (key : R -> UUID) (k : UUID) (t : list R) :
  existsb (fun r => N.eqb (key r) k) t = true <-> In k (map key t).
Proof.
  rewrite existsb_exists, in_map_iff.
  split; intros [r [H1 H2]]; exists r.
  - apply N.eqb_eq in H2. auto.
  - rewrite N.eqb_eq. auto.
Qed.

(** The row [select_booking_for_update] finds. *)
Lemma find_booking_in (id u : UUID) (t : list booking) b :
  find (fun r => N.eqb (b_id r) id && N.eqb (b_user_id r) u) t = Some b ->
  In b t /\ b_id b = id /\ b_user_id b = u.
Proof.
  intros H. apply find_some in H. destruct H as [Hin H].
  apply andb_true_iff in H. destruct H as [H1 H2].
  apply N.eqb_eq in H1, H2. auto.
Qed.

Lemma find_booking_pkey (t : list booking) b :
  NoDup (map b_id t) -> In b t ->
  find (fun r => N.eqb (b_id r) (b_id b) && N.eqb (b_user_id r) (b_user_id b)) t
  = Some b.
Proof.
  intros Hnd Hin.
  destruct (find _ t) as [r|] eqn:Hf.
  - apply find_booking_in in Hf. destruct Hf as [Hr [Hid _]].
    f_equal. now apply (unique_key b_id t).
  - exfalso. apply (find_none _ _ Hf) in Hin.
    rewrite !N.eqb_refl in Hin. discriminate.
Qed.

Lemma find_booking_none_other (t : list booking) b u :
  NoDup (map b_id t) -> In b t -> u <> b_user_id b ->
  find (fun r => N.eqb (b_id r) (b_id b) && N.eqb (b_user_id r) u) t = None.
Proof.
  intros Hnd Hin Hu.
  destruct (find _ t) as [r|] eqn:Hf; [|reflexivity].
  apply find_booking_in in Hf. destruct Hf as [Hr [Hid Hrest]].
  assert (r = b) by now apply (unique_key b_id t).
  subst r. congruence.
Qed.

(** ** The functions, one equation each *)

Lemma call_book_slot locked new_id now u s db :
  call (book_slot locked new_id now u s) db =
  match find (fun sd => N.eqb (s_id (fst sd)) s && s_is_available (fst sd))
             (slots_join_doctors db) with
  | None => (db, Returned (failure SLOT_UNAVAILABLE msg_unavailable))
  | Some (v_slot, d) =>
      if existsb (N.eqb (s_id v_slot)) locked
      then (db, Returned (failure SLOT_LOCKED msg_locked))
      else if existsb (fun r => N.eqb (b_id r) new_id) (bookings db)
              || existsb (fun r => N.eqb (b_slot_id r) s) (bookings db)
      then (db, Returned (failure SLOT_ALREADY_BOOKED msg_already_booked))
      else if existsb (N.eqb u) (users db)
              && existsb (fun r => N.eqb (s_id r) s) (slots db)
              && existsb (fun r => N.eqb (d_id r) (s_doctor_id v_slot))
                         (doctors db)
      then
        let b := new_booking new_id now u s (s_doctor_id v_slot) in
        (mkDatabase (users db) (doctors db)
           (update_where (fun r => N.eqb (s_id r) s) (set_is_available false)
                         (slots db))
           (bookings db ++ [b]),
         Returned (success
           (mkBookingJson new_id s (s_doctor_id v_slot) (d_name d)
              (s_start_time v_slot) (s_end_time v_slot) PENDING
              (Some (now + INTERVAL_2_minutes)) now)))
      else (db, Raised foreign_key_violation)
  end.
Proof.
  unfold call, book_slot, begin_exception, bind, ret, raise,
    select_slot_for_update_nowait.
  destruct (find _ (slots_join_doctors db)) as [[v_slot d]|]; [|reflexivity].
  simpl fst.
  destruct (existsb (N.eqb (s_id v_slot)) locked); [reflexivity|].
  unfold insert_into_bookings, new_booking, ret, raise.
  cbn [b_id b_slot_id b_user_id b_doctor_id].
  destruct (existsb _ (bookings db) || existsb _ (bookings db));
    [reflexivity|].
  match goal with |- context [if ?c then _ else _] => destruct c end;
    reflexivity.
Qed.

Lemma call_confirm_booking now u id db :
  call (confirm_booking now u id) db =
  match find (fun b => N.eqb (b_id b) id && N.eqb (b_user_id b) u)
             (bookings db) with
  | None => (db, Returned (failure BOOKING_NOT_FOUND "Booking not found"))
  | Some v =>
      if negb (booking_status_eqb (b_status v) PENDING)
      then (db, Returned (failure INVALID_STATUS
                  (String.append "Booking cannot be confirmed. Current status: "
                     (booking_status_text (b_status v)))))
      else if is_true (timestamptz_lt (b_expires_at v) (Some now))
      then
        (mkDatabase (users db) (doctors db)
           (update_where (fun r => N.eqb (s_id r) (b_slot_id v))
                         (set_is_available true) (slots db))
           (update_where (fun r => N.eqb (b_id r) id)
                         (fun r => update_updated_at_column now (set_failed r))
                         (bookings db)),
         Returned (failure BOOKING_EXPIRED msg_expired))
      else
        (mkDatabase (users db) (doctors db) (slots db)
           (update_where (fun r => N.eqb (b_id r) id)
              (fun r => update_updated_at_column now (set_confirmed now r))
              (bookings db)),
         Returned (success "Booking confirmed successfully"%string))
  end.
Proof.
  unfold call, confirm_booking, bind, select_booking_for_update.
  destruct (find _ (bookings db)) as [v|]; [|reflexivity].
  destruct (negb _); [reflexivity|].
  destruct (is_true _); reflexivity.
Qed.

Lemma call_cancel_booking now u id db :
  call (cancel_booking now u id) db =
  match find (fun b => N.eqb (b_id b) id && N.eqb (b_user_id b) u)
             (bookings db) with
  | None => (db, Returned (failure BOOKING_NOT_FOUND "Booking not found"))
  | Some v =>
      if negb (active v)
      then (db, Returned (failure INVALID_STATUS
                  (String.append "Booking cannot be cancelled. Current status: "
                     (booking_status_text (b_status v)))))
      else
        (mkDatabase (users db) (doctors db)
           (update_where (fun r => N.eqb (s_id r) (b_slot_id v))
                         (set_is_available true) (slots db))
           (update_where (fun r => N.eqb (b_id r) id)
              (fun r => update_updated_at_column now (set_cancelled now r))
              (bookings db)),
         Returned (success "Booking cancelled successfully"%string))
  end.
Proof.
  unfold call, cancel_booking, bind, select_booking_for_update, active.
  destruct (find _ (bookings db)) as [v|]; [|reflexivity].
  destruct (negb _); reflexivity.
Qed.

Lemma pending_and_expired_true now b :
  pending_and_expired now b = true <->
  b_status b = PENDING /\ exists e, b_expires_at b = Some e /\ e < now.
Proof.
  unfold pending_and_expired, sql_and, timestamptz_lt, is_true.
  rewrite <- booking_status_eqb_eq.
  destruct (booking_status_eqb (b_status b) PENDING);
    destruct (b_expires_at b) as [e|]; simpl.
  - destruct (Z.ltb_spec e now); split.
    + intros _. split; [reflexivity|]. exists e. auto.
    + reflexivity.
    + discriminate.
    + intros [_ [e' [He' Hlt]]]. inversion He'. lia.
  - split; [discriminate|]. intros [_ [e [He _]]]. discriminate.
  - destruct (e <? now); split; try discriminate; intros [H _]; discriminate.
  - split; [discriminate|]. intros [H _]; discriminate.
Qed.

Lemma call_expire_pending_bookings now db :
  call (expire_pending_bookings now) db =
  (mkDatabase (users db) (doctors db)
     (update_where (in_expired now db) (set_is_available true) (slots db))
     (update_where (pending_and_expired now)
        (fun b => update_updated_at_column now (set_failed b)) (bookings db)),
   Returned (Z.of_nat (List.length (filter (in_expired now db) (slots db))))).
Proof. reflexivity. Qed.

Ltac case_if :=
  match goal with
  | |- context [if ?c then _ else _] => destruct c eqn:?
  | H : context [if ?c then _ else _] |- _ => destruct c eqn:?
  end.

Ltac case_find :=
  match goal with
  | |- context [match find ?f ?l with _ => _ end] => destruct (find f l) eqn:?
  | H : context [match find ?f ?l with _ => _ end] |- _ =>
      destruct (find f l) eqn:?
  end.

(** ** Rows are never deleted and keep their keys *)

Lemma NoDup_snoc {K} (l : list K) (k : K) :
  NoDup l -> ~ In k l -> NoDup (l ++ [k]).
Proof.
  induction l as [|x l IH]; simpl; intros Hnd Hk.
  - constructor; [tauto|constructor].
  - inversion Hnd as [|? ? Hx Hl]; subst. constructor.
    + rewrite in_app_iff. simpl. intros [H|[H|[]]]; [tauto|].
      subst. tauto.
    + apply IH; tauto.
Qed.

(** An operation either keeps the [id] and [slot_id] columns of
    [bookings] as they are, or appends one row whose [id] and [slot_id]
    are both new to the table. *)
Lemma step_bookings_keys db op :
  (map b_id (bookings (step db op)) = map b_id (bookings db) /\
   map b_slot_id (bookings (step db op)) = map b_slot_id (bookings db)) \/
  (exists b, bookings (step db op) = bookings db ++ [b] /\
     ~ In (b_id b) (map b_id (bookings db)) /\
     ~ In (b_slot_id b) (map b_slot_id (bookings db))).
Proof.
  destruct op as [locked new_id now u s|now u id|now u id|now]; simpl.
  - rewrite call_book_slot. case_find; [|auto].
    destruct p as [v_slot d].
    case_if; [auto|]. case_if; [auto|]. case_if; [|auto].
    right. simpl. eexists. split; [reflexivity|].
    match goal with H : (_ || _) = false |- _ =>
      apply orb_false_iff in H; destruct H as [H1 H2] end.
    simpl. split; intros Hin; apply existsb_key in Hin; congruence.
  - rewrite call_confirm_booking. case_find; [|auto].
    case_if; [auto|]. case_if; left; simpl;
      split; apply map_update_where; reflexivity.
  - rewrite call_cancel_booking. case_find; [|auto].
    case_if; [auto|]. left; simpl;
      split; apply map_update_where; reflexivity.
  - left; simpl; split; apply map_update_where; reflexivity.
Qed.

Lemma step_constraints db op :
  bookings_pkey db -> unique_active_booking db ->
  bookings_pkey (step db op) /\ unique_active_booking (step db op).
Proof.
  unfold bookings_pkey, unique_active_booking. intros Hpk Hun.
  destruct (step_bookings_keys db op) as [[E1 E2]|[b [E [N1 N2]]]].
  - rewrite E1, E2. auto.
  - rewrite E, !map_app. simpl. split; apply NoDup_snoc; auto.
Qed.

Lemma run_constraints ops : forall db,
  bookings_pkey db -> unique_active_booking db ->
  bookings_pkey (run db ops) /\ unique_active_booking (run db ops).
Proof.
  induction ops as [|op ops IH]; simpl; intros db Hpk Hun; [auto|].
  destruct (step_constraints db op Hpk Hun). now apply IH.
Qed.

Lemma step_slot_booked db op S :
  In S (map b_slot_id (bookings db)) ->
  In S (map b_slot_id (bookings (step db op))).
Proof.
  intros H.
  destruct (step_bookings_keys db op) as [[_ E]|[b [E _]]].
  - now rewrite E.
  - rewrite E, map_app, in_app_iff. now left.
Qed.

Lemma run_slot_booked ops : forall db S,
  In S (map b_slot_id (bookings db)) ->
  In S (map b_slot_id (bookings (run db ops))).
Proof.
  induction ops as [|op ops IH]; simpl; intros db S H; [assumption|].
  apply IH. now apply step_slot_booked.
Qed.

(** While a row of [bookings] names the slot, [book_slot] on that slot
    changes nothing and answers with one of the three slot errors. *)
Lemma book_slot_booked_rejected locked new_id now u S db :
  In S (map b_slot_id (bookings db)) ->
  exists err msg,
    call (book_slot locked new_id now u S) db
    = (db, Returned (failure err msg)) /\ reserve_error err = true.
Proof.
  intros H. apply existsb_key in H.
  rewrite call_book_slot. case_find.
  - destruct p as [v_slot d]. case_if.
    + exists SLOT_LOCKED, msg_locked. auto.
    + rewrite H, orb_true_r. exists SLOT_ALREADY_BOOKED, msg_already_booked.
      auto.
  - exists SLOT_UNAVAILABLE, msg_unavailable. auto.
Qed.

(** While another transaction holds the lock of the slot row,
    [book_slot] on that slot changes nothing and answers SLOT_UNAVAILABLE
    or SLOT_LOCKED. *)
Lemma book_slot_while_locked locked new_id now u S db :
  In S locked ->
  exists err msg,
    call (book_slot locked new_id now u S) db
    = (db, Returned (failure err msg)) /\
    (err = SLOT_UNAVAILABLE \/ err = SLOT_LOCKED).
Proof.
  intros H. rewrite call_book_slot. case_find.
  - destruct p as [v_slot d].
    match goal with Hf : find _ _ = Some _ |- _ =>
      apply find_some in Hf; destruct Hf as [_ Hf];
      apply andb_true_iff in Hf; destruct Hf as [Hf _];
      apply N.eqb_eq in Hf; simpl in Hf end.
    assert (Hl : existsb (N.eqb (s_id v_slot)) locked = true).
    { apply existsb_exists. exists S. split; [assumption|].
      now apply N.eqb_eq. }
    rewrite Hl. exists SLOT_LOCKED, msg_locked. auto.
  - exists SLOT_UNAVAILABLE, msg_unavailable. auto.
Qed.

(** What a successful [book_slot] did. *)
Lemma book_slot_success locked new_id now u S db db' bk :
  call (book_slot locked new_id now u S) db = (db', Returned (success bk)) ->
  exists v_doctor_id,
    db' = mkDatabase (users db) (doctors db)
            (update_where (fun r => N.eqb (s_id r) S) (set_is_available false)
                          (slots db))
            (bookings db ++ [new_booking new_id now u S v_doctor_id]) /\
    j_id bk = new_id /\
    ~ In new_id (map b_id (bookings db)) /\
    ~ In S (map b_slot_id (bookings db)) /\
    In S (map s_id (slots db)).
Proof.
  rewrite call_book_slot. case_find; [|discriminate].
  destruct p as [v_slot d].
  case_if; [discriminate|]. case_if; [discriminate|].
  case_if; [|discriminate].
  intros E. inversion E; subst; clear E.
  exists (s_doctor_id v_slot). split; [reflexivity|]. simpl.
  match goal with H : (_ || _) = false |- _ =>
    apply orb_false_iff in H; destruct H as [H1 H2] end.
  match goal with H : (_ && _ && _) = true |- _ =>
    apply andb_true_iff in H; destruct H as [H3 _];
    apply andb_true_iff in H3; destruct H3 as [_ H3] end.
  split; [reflexivity|].
  repeat split.
  - intros Hin. apply existsb_key in Hin. congruence.
  - intros Hin. apply existsb_key in Hin. congruence.
  - now apply existsb_key.
Qed.

(** ** Availability follows the active bookings *)

Lemma in_expired_true now db s :
  in_expired now db s = true <->
  exists b, In b (bookings db) /\ pending_and_expired now b = true /\
            b_slot_id b = s_id s.
Proof.
  unfold in_expired, expired. rewrite existsb_exists. split.
  - intros [k [Hk E]]. apply N.eqb_eq in E. apply in_map_iff in Hk.
    destruct Hk as [b [Hb Hin]]. apply filter_In in Hin.
    exists b. intuition congruence.
  - intros [b [Hin [Hpe Hs]]]. exists (b_slot_id b). split.
    + apply in_map. apply filter_In. auto.
    + apply N.eqb_eq. auto.
Qed.

Section Preservation.

Variable db : database.
Hypothesis Hpkey : bookings_pkey db.
Hypothesis Hunique : unique_active_booking db.
Hypothesis Hinv : availability_invariant db.

(** An update of one booking that keeps it active, slots untouched. *)
Lemma invariant_keep_active v (set : booking -> booking) :
  In v (bookings db) ->
  (forall b, b_slot_id (set b) = b_slot_id b) ->
  active (set v) = active v ->
  availability_invariant
    (mkDatabase (users db) (doctors db) (slots db)
       (update_where (fun r => N.eqb (b_id r) (b_id v)) set (bookings db))).
Proof.
  intros Hv Hslot Hact s Hs. simpl in *. rewrite (Hinv s Hs). split.
  - intros H b' Hb' E. apply in_update_where in Hb'.
    destruct Hb' as [b [Hb ->]].
    destruct (N.eqb_spec (b_id b) (b_id v)) as [Eid|Nid].
    + assert (b = v) by now apply (unique_key b_id (bookings db)).
      subst b. rewrite Hact. rewrite Hslot in E. auto.
    + auto.
  - intros H b Hb E.
    destruct (N.eqb_spec (b_id b) (b_id v)) as [Eid|Nid].
    + assert (b = v) by now apply (unique_key b_id (bookings db)).
      subst b. rewrite <- Hact. apply H.
      * apply in_update_where. exists v. rewrite N.eqb_refl. auto.
      * rewrite Hslot. exact E.
    + apply H; [|exact E]. apply in_update_where. exists b.
      apply N.eqb_neq in Nid. rewrite Nid. auto.
Qed.

(** An update that ends one booking and releases its slot. *)
Lemma invariant_release v (set : booking -> booking) :
  In v (bookings db) ->
  (forall b, b_slot_id (set b) = b_slot_id b) ->
  (forall b, active (set b) = false) ->
  availability_invariant
    (mkDatabase (users db) (doctors db)
       (update_where (fun r => N.eqb (s_id r) (b_slot_id v))
                     (set_is_available true) (slots db))
       (update_where (fun r => N.eqb (b_id r) (b_id v)) set (bookings db))).
Proof.
  intros Hv Hslot Hact s' Hs'. simpl in *.
  apply in_update_where in Hs'. destruct Hs' as [s [Hs ->]].
  destruct (N.eqb_spec (s_id s) (b_slot_id v)) as [Es|Ns].
  - simpl. split; [intros _|reflexivity].
    intros b' Hb' E. apply in_update_where in Hb'.
    destruct Hb' as [b [Hb ->]].
    destruct (N.eqb_spec (b_id b) (b_id v)) as [Eid|Nid]; [apply Hact|].
    exfalso. apply Nid. f_equal.
    apply (unique_key b_slot_id (bookings db)); auto. congruence.
  - rewrite (Hinv s Hs). split.
    + intros H b' Hb' E. apply in_update_where in Hb'.
      destruct Hb' as [b [Hb ->]].
      destruct (N.eqb_spec (b_id b) (b_id v)) as [Eid|Nid]; [|auto].
      assert (b = v) by now apply (unique_key b_id (bookings db)).
      subst b. rewrite Hslot in E. congruence.
    + intros H b Hb E. apply H; [|exact E].
      apply in_update_where. exists b. split; [assumption|].
      destruct (N.eqb_spec (b_id b) (b_id v)) as [Eid|Nid]; [|reflexivity].
      assert (b = v) by now apply (unique_key b_id (bookings db)).
      subst b. congruence.
Qed.

Lemma invariant_sweep now :
  availability_invariant
    (fst (call (expire_pending_bookings now) db)).
Proof.
  rewrite call_expire_pending_bookings. intros s' Hs'. simpl in *.
  apply in_update_where in Hs'. destruct Hs' as [s [Hs ->]].
  destruct (in_expired now db s) eqn:Hexp.
  - simpl. split; [intros _|reflexivity].
    apply in_expired_true in Hexp. destruct Hexp as [b0 [Hb0 [Hpe0 Hs0]]].
    intros b' Hb' E. apply in_update_where in Hb'.
    destruct Hb' as [b [Hb ->]].
    destruct (pending_and_expired now b) eqn:Hpe; [reflexivity|].
    assert (b = b0)
      by (apply (unique_key b_slot_id (bookings db)); auto; congruence).
    subst b. congruence.
  - assert (Hnot : forall b, In b (bookings db) -> b_slot_id b = s_id s ->
                             pending_and_expired now b = false).
    { intros b Hb E. destruct (pending_and_expired now b) eqn:Hpe; auto.
      assert (in_expired now db s = true)
        by (apply in_expired_true; exists b; auto).
      congruence. }
    rewrite (Hinv s Hs). split.
    + intros H b' Hb' E. apply in_update_where in Hb'.
      destruct Hb' as [b [Hb ->]].
      destruct (pending_and_expired now b) eqn:Hpe; [|auto].
      simpl in E. rewrite (Hnot b Hb E) in Hpe. discriminate.
    + intros H b Hb E. apply H; [|exact E].
      apply in_update_where. exists b. rewrite (Hnot b Hb E). auto.
Qed.

Lemma invariant_book new_id now u S v_doctor_id :
  ~ In S (map b_slot_id (bookings db)) ->
  availability_invariant
    (mkDatabase (users db) (doctors db)
       (update_where (fun r => N.eqb (s_id r) S) (set_is_available false)
                     (slots db))
       (bookings db ++ [new_booking new_id now u S v_doctor_id])).
Proof.
  intros Hfree s' Hs'. simpl in *.
  apply in_update_where in Hs'. destruct Hs' as [s [Hs ->]].
  destruct (N.eqb_spec (s_id s) S) as [Es|Ns].
  - simpl. split; [discriminate|]. intros H.
    specialize (H (new_booking new_id now u S v_doctor_id)).
    rewrite in_app_iff in H. simpl in H.
    symmetry. apply H; auto.
  - rewrite (Hinv s Hs). split.
    + intros H b' Hb' E. apply in_app_iff in Hb'.
      destruct Hb' as [Hb'|[<-|[]]]; [auto|]. simpl in E. congruence.
    + intros H b Hb E. apply H; [|exact E]. apply in_app_iff. auto.
Qed.

Lemma step_availability_invariant op :
  availability_invariant (step db op).
Proof.
  destruct op as [locked new_id now u s|now u id|now u id|now]; simpl.
  - destruct (call (book_slot locked new_id now u s) db) as [db' r] eqn:E.
    simpl. destruct r as [[bk|err msg]|e].
    + apply book_slot_success in E.
      destruct E as [v_doctor_id [-> [_ [_ [Hfree _]]]]].
      now apply invariant_book.
    + rewrite call_book_slot in E. case_find; [destruct p|];
        repeat case_if; inversion E; subst; assumption.
    + rewrite call_book_slot in E. case_find; [destruct p|];
        repeat case_if; inversion E; subst; assumption.
  - rewrite call_confirm_booking. case_find; [|assumption].
    match goal with H : find _ _ = Some _ |- _ =>
      apply find_booking_in in H; destruct H as [Hb [<- _]] end.
    case_if; [assumption|]. case_if; simpl.
    + apply invariant_release; auto.
    + apply invariant_keep_active; auto.
      match goal with H : negb _ = false |- _ =>
        apply negb_false_iff, booking_status_eqb_eq in H;
        unfold active; simpl; rewrite H end.
      reflexivity.
  - rewrite call_cancel_booking. case_find; [|assumption].
    match goal with H : find _ _ = Some _ |- _ =>
      apply find_booking_in in H; destruct H as [Hb [<- _]] end.
    case_if; [assumption|]. simpl. apply invariant_release; auto.
  - apply invariant_sweep.
Qed.

End Preservation.

Lemma run_availability_invariant ops : forall db,
  bookings_pkey db -> unique_active_booking db -> availability_invariant db ->
  availability_invariant (run db ops).
Proof.
  induction ops as [|op ops IH]; simpl; intros db Hpk Hun Hinv; [assumption|].
  destruct (step_constraints db op Hpk Hun).
  apply IH; auto. now apply step_availability_invariant.
Qed.

Lemma availability_check_sound db :
  availability_check db = true -> availability_invariant db.
Proof.
  unfold availability_check. rewrite forallb_forall.
  intros H s Hs. specialize (H s Hs). apply eqb_prop in H. rewrite H.
  rewrite forallb_forall. split; intros G b Hb.
  - intros E. specialize (G b Hb). apply N.eqb_eq in E. rewrite E in G.
    simpl in G. now apply negb_true_iff in G.
  - destruct (N.eqb_spec (b_slot_id b) (s_id s)) as [E|E]; [|reflexivity].
    simpl. now rewrite (G b Hb E).
Qed.

(** ** Rows after an update by key *)

Lemma updated_booking_has_status us ds sl (t : list booking) set st b :
  In b t ->
  (forall r, b_id (set r) = b_id r) ->
  (forall r, b_status (set r) = st) ->
  booking_has_status
    (mkDatabase us ds sl
       (update_where (fun r => N.eqb (b_id r) (b_id b)) set t))
    (b_id b) st.
Proof.
  intros Hb Hid Hst. split; simpl.
  - exists (set b). split; [|apply Hid].
    apply in_update_where. exists b. rewrite N.eqb_refl. auto.
  - intros b' Hb' E. apply in_update_where in Hb'.
    destruct Hb' as [r [Hr ->]].
    destruct (N.eqb_spec (b_id r) (b_id b)); [apply Hst|congruence].
Qed.

Lemma released_slot_is_available us ds (sl : list slot) bs sid :
  slot_is_available
    (mkDatabase us ds
       (update_where (fun r => N.eqb (s_id r) sid) (set_is_available true) sl)
       bs)
    sid true.
Proof.
  intros s' Hs' E. simpl in Hs'. apply in_update_where in Hs'.
  destruct Hs' as [s [Hs ->]].
  destruct (N.eqb_spec (s_id s) sid); [reflexivity|congruence].
Qed.

Lemma pending_and_expired_failed now now' b :
  pending_and_expired now' (update_updated_at_column now (set_failed b))
  = false.
Proof.
  unfold pending_and_expired. simpl.
  destruct (timestamptz_lt (b_expires_at b) (Some now')) as [[|]|];
    reflexivity.
Qed.

(** A sweep at [now'] after a sweep at [now] finds nothing to do when no
    PENDING row reached its deadline in between. *)
Lemma sweep_again_later db (now now' : timestamptz) :
  (forall b e, In b (bookings db) -> b_status b = PENDING ->
               b_expires_at b = Some e -> e < now' -> e < now) ->
  call (expire_pending_bookings now')
       (fst (call (expire_pending_bookings now) db))
  = (fst (call (expire_pending_bookings now) db), Returned 0).
Proof.
  intros Hquiet.
  rewrite (call_expire_pending_bookings now db). simpl fst.
  set (db1 := mkDatabase _ _ _ _).
  assert (Hnone : forall r, In r (bookings db1) ->
                            pending_and_expired now' r = false).
  { intros r' Hr'. simpl in Hr'. apply in_update_where in Hr'.
    destruct Hr' as [r [Hr ->]].
    destruct (pending_and_expired now r) eqn:Hpe;
      [apply pending_and_expired_failed|].
    destruct (pending_and_expired now' r) eqn:Hpe'; [|reflexivity].
    apply pending_and_expired_true in Hpe'.
    destruct Hpe' as [Hst [e [He Hlt]]].
    assert (pending_and_expired now r = true); [|congruence].
    apply pending_and_expired_true. split; [assumption|].
    exists e. split; [assumption|]. now apply (Hquiet r). }
  assert (Hexp : forall s, in_expired now' db1 s = false).
  { intros s. unfold in_expired, expired.
    now rewrite (filter_none _ _ Hnone). }
  rewrite call_expire_pending_bookings.
  rewrite (update_where_none (pending_and_expired now')); [|assumption].
  rewrite (update_where_none (in_expired now' db1)); [|auto].
  rewrite (filter_none (in_expired now' db1)); [|auto].
  reflexivity.
Qed.

(** ** The claims *)

(** C1.  In the scenario of the specification (A reserves S, nobody
    confirms, the sweeper runs at t+121s) the sweep leaves A's booking
    FAILED and S available, and B's reserve on S is then answered with
    SLOT_ALREADY_BOOKED and changes nothing: the FAILED row still holds
    S in the UNIQUE (slot_id) index. *)
Theorem reserve_after_sweep_is_rejected :
  booking_has_status Scenario.swept Scenario.reservationA FAILED /\
  slot_is_available Scenario.swept Scenario.slotS true /\
  availability_invariant Scenario.swept /\
  call (book_slot [] Scenario.reservationB
          (Scenario.t + Scenario.seconds 122)
          Scenario.requesterB Scenario.slotS) Scenario.swept
  = (Scenario.swept, Returned (failure SLOT_ALREADY_BOOKED msg_already_booked)).
Proof.
  split; [|split; [|split]].
  - split.
    + eexists. split; [left; reflexivity|reflexivity].
    + intros b [<-|[]] _. reflexivity.
  - intros s [<-|[]] _. reflexivity.
  - apply availability_check_sound. vm_compute. reflexivity.
  - vm_compute. reflexivity.
Qed.

(** C2.  Once a reserve on slot S has succeeded, then after any sequence
    of reserve, confirm, cancel and sweepExpired calls, as long as the
    reservation it created is still PENDING or CONFIRMED, every reserve
    on S leaves the database as it is and answers SLOT_UNAVAILABLE,
    SLOT_LOCKED or SLOT_ALREADY_BOOKED. *)
Theorem reserve_mutual_exclusion
    db locked new_id now u S db1 bk ops locked' new_id' now' u' :
  call (book_slot locked new_id now u S) db = (db1, Returned (success bk)) ->
  (exists b, In b (bookings (run db1 ops)) /\ b_id b = j_id bk /\
             active b = true) ->
  exists err msg,
    call (book_slot locked' new_id' now' u' S) (run db1 ops)
    = (run db1 ops, Returned (failure err msg)) /\
    reserve_error err = true.
Proof.
  intros Hok _. apply book_slot_success in Hok.
  destruct Hok as [v_doctor_id [-> _]].
  apply book_slot_booked_rejected, run_slot_booked. simpl.
  rewrite map_app, in_app_iff. right. simpl. auto.
Qed.

Lemma reserve_mutual_exclusion_witness :
  exists err msg,
    call (book_slot [] Scenario.reservationB
            (Scenario.t + Scenario.seconds 61)
            Scenario.requesterB Scenario.slotS)
         (run Scenario.reserved
            [reserve [] Scenario.reservationB (Scenario.t + Scenario.seconds 1)
                     Scenario.requesterB Scenario.slotS;
             confirm (Scenario.t + Scenario.seconds 60)
                     Scenario.requesterA Scenario.reservationA])
    = (run Scenario.reserved
            [reserve [] Scenario.reservationB (Scenario.t + Scenario.seconds 1)
                     Scenario.requesterB Scenario.slotS;
             confirm (Scenario.t + Scenario.seconds 60)
                     Scenario.requesterA Scenario.reservationA],
       Returned (failure err msg)) /\
    reserve_error err = true.
Proof.
  eapply (reserve_mutual_exclusion Scenario.schedule [] Scenario.reservationA
            Scenario.t Scenario.requesterA Scenario.slotS).
  - vm_compute. reflexivity.
  - vm_compute. eexists. split; [left; reflexivity|split; reflexivity].
Defined.

(** C3.  From a database that satisfies the primary key of bookings and
    UNIQUE (slot_id), and in which a slot is available exactly when no
    booking on it is PENDING or CONFIRMED, every sequence of reserve,
    confirm, cancel and sweepExpired calls leads to a database in which
    a slot is available exactly when no booking on it is PENDING or
    CONFIRMED. *)
Theorem availability_invariant_preserved db ops :
  bookings_pkey db -> unique_active_booking db -> availability_invariant db ->
  availability_invariant (run db ops).
Proof. intros. now apply run_availability_invariant. Qed.

Lemma availability_invariant_preserved_witness :
  availability_invariant
    (run Scenario.schedule
       [reserve [] Scenario.reservationA Scenario.t
                Scenario.requesterA Scenario.slotS;
        reserve [] Scenario.reservationB (Scenario.t + Scenario.seconds 1)
                Scenario.requesterB Scenario.slotS;
        confirm (Scenario.t + Scenario.seconds 60)
                Scenario.requesterA Scenario.reservationA;
        cancel (Scenario.t + Scenario.seconds 90)
               Scenario.requesterA Scenario.reservationA;
        sweepExpired (Scenario.t + Scenario.seconds 121)]).
Proof.
  apply (availability_invariant_preserved Scenario.schedule).
  - constructor.
  - constructor.
  - apply availability_check_sound. vm_compute. reflexivity.
Defined.

(** C4.  A reserve that succeeds has appended exactly one row to
    bookings, for that requester and slot, PENDING, with expires_at =
    now + 2 minutes, on a slot no other row named; in the same committed
    database every row of that slot has is_available = false, and nothing
    else has changed. *)
Theorem reserve_success_postcondition locked new_id now u S db db' bk :
  call (book_slot locked new_id now u S) db = (db', Returned (success bk)) ->
  (exists b,
     bookings db' = bookings db ++ [b] /\
     b_id b = j_id bk /\ b_user_id b = u /\ b_slot_id b = S /\
     b_status b = PENDING /\
     b_expires_at b = Some (now + INTERVAL_2_minutes)) /\
  ~ In S (map b_slot_id (bookings db)) /\
  slots db' = update_where (fun r => N.eqb (s_id r) S)
                           (set_is_available false) (slots db) /\
  In S (map s_id (slots db')) /\
  slot_is_available db' S false /\
  users db' = users db /\ doctors db' = doctors db.
Proof.
  intros Hok. apply book_slot_success in Hok.
  destruct Hok as [v_doctor_id [-> [Hid [_ [Hfree Hslot]]]]]. simpl.
  split; [|split; [|split; [|split; [|split]]]]; auto.
  - eexists. split; [reflexivity|]. simpl. auto using eq_sym.
  - rewrite map_update_where; auto.
  - intros s' Hs' E. simpl in Hs'. apply in_update_where in Hs'.
    destruct Hs' as [s [Hs ->]].
    destruct (N.eqb_spec (s_id s) S); [reflexivity|congruence].
Qed.

Lemma reserve_success_postcondition_witness :
  (exists b,
     bookings Scenario.reserved = bookings Scenario.schedule ++ [b] /\
     b_id b = j_id Scenario.reservationA_json /\
     b_user_id b = Scenario.requesterA /\ b_slot_id b = Scenario.slotS /\
     b_status b = PENDING /\
     b_expires_at b = Some (Scenario.t + INTERVAL_2_minutes)) /\
  ~ In Scenario.slotS (map b_slot_id (bookings Scenario.schedule)) /\
  slots Scenario.reserved
  = update_where (fun r => N.eqb (s_id r) Scenario.slotS)
                 (set_is_available false) (slots Scenario.schedule) /\
  In Scenario.slotS (map s_id (slots Scenario.reserved)) /\
  slot_is_available Scenario.reserved Scenario.slotS false /\
  users Scenario.reserved = users Scenario.schedule /\
  doctors Scenario.reserved = doctors Scenario.schedule.
Proof.
  apply (reserve_success_postcondition [] Scenario.reservationA Scenario.t
           Scenario.requesterA Scenario.slotS Scenario.schedule
           Scenario.reserved Scenario.reservationA_json).
  vm_compute. reflexivity.
Defined.

(** The test [expires_at < NOW()] of [confirm_booking]. *)
Lemma deadline_test now b :
  is_true (timestamptz_lt (b_expires_at b) (Some now)) = false <->
  not_past_deadline now b.
Proof.
  unfold not_past_deadline, timestamptz_lt, is_true.
  destruct (b_expires_at b) as [e|].
  - destruct (Z.ltb_spec e now); split.
    + discriminate.
    + intros H'. specialize (H' e eq_refl). lia.
    + intros _ e' E. inversion E. lia.
    + reflexivity.
  - split; [intros _ e E; discriminate|reflexivity].
Qed.

(** C5, as the specification states it, fails: A's reservation expires
    at t+120s, and a confirm at exactly t+120s succeeds although
    [now < expires_at] does not hold. *)
Lemma confirm_at_the_deadline_succeeds :
  confirm_succeeds (Scenario.t + Scenario.seconds 120)
                   Scenario.requesterA Scenario.reservationA
                   Scenario.reserved /\
  ~ spec_confirm_valid (Scenario.t + Scenario.seconds 120)
                       Scenario.requesterA Scenario.reservationA
                       Scenario.reserved.
Proof.
  split.
  - eexists. vm_compute. reflexivity.
  - intros [b [e [Hin [_ [_ [_ [He Hlt]]]]]]].
    destruct Hin as [<-|[]]. simpl in He. inversion He; subst e.
    vm_compute in Hlt. discriminate.
Qed.

(** C5, amended.  Under the primary key of bookings, confirm succeeds if
    and only if a reservation with that id exists, belongs to the
    requester, is PENDING and is not past its deadline: its expires_at,
    when set, satisfies now <= expires_at.  On success every row with
    that id is CONFIRMED, with confirmed_at = now and expires_at
    cleared. *)
Theorem confirm_succeeds_iff db now u id :
  bookings_pkey db ->
  (confirm_succeeds now u id db <->
   exists b, In b (bookings db) /\ b_id b = id /\ b_user_id b = u /\
             b_status b = PENDING /\ not_past_deadline now b) /\
  (confirm_succeeds now u id db ->
   booking_has_status (fst (call (confirm_booking now u id) db)) id CONFIRMED /\
   forall b', In b' (bookings (fst (call (confirm_booking now u id) db))) ->
              b_id b' = id ->
              b_confirmed_at b' = Some now /\ b_expires_at b' = None).
Proof.
  intros Hpk. unfold confirm_succeeds. rewrite call_confirm_booking.
  destruct (find _ (bookings db)) as [v|] eqn:Hfind.
  - pose proof (find_booking_in _ _ _ _ Hfind) as [Hv [Hid Hu]].
    destruct (booking_status_eqb (b_status v) PENDING) eqn:Hst; simpl.
    + apply booking_status_eqb_eq in Hst.
      destruct (is_true _) eqn:Hexp; simpl.
      * split; [split|]; try (intros [payload H]; discriminate).
        intros [b [Hb [Hbid [_ [_ Hdl]]]]].
        assert (b = v)
          by (apply (unique_key b_id (bookings db)); auto; congruence).
        subst b. apply deadline_test in Hdl. congruence.
      * split; [split|].
        -- intros _. exists v. apply deadline_test in Hexp. auto.
        -- intros _. eexists. reflexivity.
        -- intros _. subst id. split.
           ++ apply updated_booking_has_status; auto.
           ++ intros b' Hb' E. apply in_update_where in Hb'.
              destruct Hb' as [r [Hr ->]].
              destruct (N.eqb_spec (b_id r) (b_id v)); [auto|congruence].
    + split; [split|]; try (intros [payload H]; discriminate).
      intros [b [Hb [Hbid [_ [Hpend _]]]]].
      assert (b = v)
        by (apply (unique_key b_id (bookings db)); auto; congruence).
      subst b. rewrite Hpend in Hst. discriminate.
  - split; [split|]; try (intros [payload H]; discriminate).
    intros [b [Hb [Hbid [Hbu _]]]].
    apply (find_none _ _ Hfind) in Hb.
    rewrite Hbid, Hbu, !N.eqb_refl in Hb. discriminate.
Qed.

Lemma confirm_succeeds_iff_witness :
  (confirm_succeeds (Scenario.t + Scenario.seconds 120)
                    Scenario.requesterA Scenario.reservationA
                    Scenario.reserved <->
   exists b, In b (bookings Scenario.reserved) /\
             b_id b = Scenario.reservationA /\
             b_user_id b = Scenario.requesterA /\
             b_status b = PENDING /\
             not_past_deadline (Scenario.t + Scenario.seconds 120) b) /\
  (confirm_succeeds (Scenario.t + Scenario.seconds 120)
                    Scenario.requesterA Scenario.reservationA
                    Scenario.reserved ->
   booking_has_status
     (fst (call (confirm_booking (Scenario.t + Scenario.seconds 120)
                   Scenario.requesterA Scenario.reservationA)
                Scenario.reserved))
     Scenario.reservationA CONFIRMED /\
   forall b',
     In b' (bookings
              (fst (call (confirm_booking (Scenario.t + Scenario.seconds 120)
                            Scenario.requesterA Scenario.reservationA)
                         Scenario.reserved))) ->
     b_id b' = Scenario.reservationA ->
     b_confirmed_at b' = Some (Scenario.t + Scenario.seconds 120) /\
     b_expires_at b' = None).
Proof.
  apply (confirm_succeeds_iff Scenario.reserved).
  repeat constructor. simpl. tauto.
Defined.

(** C6.  Under the primary key of bookings, for a PENDING reservation
    whose expires_at is strictly before now: no requester's confirm on it
    answers success; its owner's confirm answers BOOKING_EXPIRED, and the
    database that call commits has the reservation FAILED and every row
    of its slot available, the slots being the same rows otherwise. *)
Theorem expired_pending_is_never_confirmed db b e now :
  bookings_pkey db ->
  In b (bookings db) ->
  b_status b = PENDING ->
  b_expires_at b = Some e ->
  e < now ->
  (forall u, ~ confirm_succeeds now u (b_id b) db) /\
  exists db',
    call (confirm_booking now (b_user_id b) (b_id b)) db
    = (db', Returned (failure BOOKING_EXPIRED msg_expired)) /\
    booking_has_status db' (b_id b) FAILED /\
    slot_is_available db' (b_slot_id b) true /\
    map s_id (slots db') = map s_id (slots db).
Proof.
  intros Hpk Hb Hst Hexp Hlt.
  assert (Hpast : is_true (timestamptz_lt (b_expires_at b)
                             (@Some timestamptz now)) = true).
  { rewrite Hexp. simpl. apply Z.ltb_lt in Hlt. now rewrite Hlt. }
  split.
  - intros u [payload H]. rewrite call_confirm_booking in H.
    destruct (N.eq_dec u (b_user_id b)) as [->|Hu].
    + rewrite (find_booking_pkey _ _ Hpk Hb) in H. cbv beta iota in H.
      rewrite Hst, Hpast in H. discriminate.
    + rewrite (find_booking_none_other _ _ _ Hpk Hb Hu) in H. discriminate.
  - eexists. split.
    + rewrite call_confirm_booking, (find_booking_pkey _ _ Hpk Hb).
      cbv beta iota. rewrite Hst, Hpast. reflexivity.
    + split; [|split].
      * apply updated_booking_has_status; auto.
      * apply released_slot_is_available.
      * simpl. apply map_update_where. reflexivity.
Qed.

Lemma expired_pending_is_never_confirmed_witness :
  (forall u, ~ confirm_succeeds (Scenario.t + Scenario.seconds 121) u
                 Scenario.reservationA Scenario.reserved) /\
  exists db',
    call (confirm_booking (Scenario.t + Scenario.seconds 121)
            Scenario.requesterA Scenario.reservationA) Scenario.reserved
    = (db', Returned (failure BOOKING_EXPIRED msg_expired)) /\
    booking_has_status db' Scenario.reservationA FAILED /\
    slot_is_available db' Scenario.slotS true /\
    map s_id (slots db') = map s_id (slots Scenario.reserved).
Proof.
  apply (expired_pending_is_never_confirmed Scenario.reserved
           (new_booking Scenario.reservationA Scenario.t Scenario.requesterA
                        Scenario.slotS Scenario.provider)
           (Scenario.t + Scenario.seconds 120)
           (Scenario.t + Scenario.seconds 121)).
  - repeat constructor. simpl. tauto.
  - left. reflexivity.
  - reflexivity.
  - reflexivity.
  - reflexivity.
Defined.

(** ** expires_at *)

Lemma update_confirmed_without_expiry us ds sl cond set (t : list booking) :
  (forall b, In b t -> b_status b = CONFIRMED -> b_expires_at b = None) ->
  (forall r, b_status (set r) = CONFIRMED -> b_expires_at (set r) = None) ->
  confirmed_without_expiry (mkDatabase us ds sl (update_where cond set t)).
Proof.
  intros Ht Hset b' Hb'. simpl in Hb'. apply in_update_where in Hb'.
  destruct Hb' as [r [Hr ->]]. destruct (cond r); auto.
Qed.

Lemma step_confirmed_without_expiry db op :
  confirmed_without_expiry db -> confirmed_without_expiry (step db op).
Proof.
  intros Hinv.
  destruct op as [locked new_id now u s|now u id|now u id|now]; simpl.
  - destruct (call (book_slot locked new_id now u s) db) as [db' r] eqn:E.
    simpl. destruct r as [[bk|err msg]|e].
    + apply book_slot_success in E. destruct E as [v_doctor_id [-> _]].
      intros b Hb. simpl in Hb. apply in_app_iff in Hb.
      destruct Hb as [Hb|[<-|[]]]; [now apply Hinv|discriminate].
    + rewrite call_book_slot in E. case_find; [destruct p|];
        repeat case_if; inversion E; subst; assumption.
    + rewrite call_book_slot in E. case_find; [destruct p|];
        repeat case_if; inversion E; subst; assumption.
  - rewrite call_confirm_booking. case_find; [|assumption].
    case_if; [assumption|].
    case_if; simpl; apply update_confirmed_without_expiry; auto; discriminate.
  - rewrite call_cancel_booking. case_find; [|assumption].
    case_if; [assumption|].
    simpl; apply update_confirmed_without_expiry; auto; discriminate.
  - apply update_confirmed_without_expiry; auto; discriminate.
Qed.

(** C7, as the specification states it, fails: in the empty schedule no
    row carries an expires_at, and after A's reserve and the sweep at
    t+121s the FAILED row of A still carries its expires_at. *)
Lemma failed_booking_keeps_expires_at :
  spec_expires_only_while_pending Scenario.schedule /\
  ~ spec_expires_only_while_pending
      (run Scenario.schedule
         [reserve [] Scenario.reservationA Scenario.t
                  Scenario.requesterA Scenario.slotS;
          sweepExpired (Scenario.t + Scenario.seconds 121)]).
Proof.
  split.
  - intros b [].
  - intros H.
    specialize (H (update_updated_at_column (Scenario.t + Scenario.seconds 121)
                     (set_failed
                        (new_booking Scenario.reservationA Scenario.t
                           Scenario.requesterA Scenario.slotS
                           Scenario.provider)))).
    assert (FAILED = PENDING); [|discriminate].
    apply H; [left; reflexivity|discriminate].
Qed.

(** C7, amended.  If no CONFIRMED reservation carries an expires_at,
    then after every sequence of reserve, confirm, cancel and
    sweepExpired calls no CONFIRMED reservation carries an expires_at:
    reserve sets it on the PENDING row it creates and confirmation
    clears it. *)
Theorem confirmed_without_expiry_preserved db ops :
  confirmed_without_expiry db -> confirmed_without_expiry (run db ops).
Proof.
  revert db. induction ops as [|op ops IH]; simpl; intros db H; [assumption|].
  apply IH. now apply step_confirmed_without_expiry.
Qed.

Lemma confirmed_without_expiry_preserved_witness :
  confirmed_without_expiry
    (run Scenario.schedule
       [reserve [] Scenario.reservationA Scenario.t
                Scenario.requesterA Scenario.slotS;
        confirm (Scenario.t + Scenario.seconds 60)
                Scenario.requesterA Scenario.reservationA;
        sweepExpired (Scenario.t + Scenario.seconds 121)]).
Proof.
  apply (confirmed_without_expiry_preserved Scenario.schedule).
  intros b Hb. simpl in Hb. contradiction.
Defined.

(** C8.  Under the primary key of bookings, the owner's cancel of a
    CONFIRMED reservation succeeds; the database it commits has the
    reservation CANCELLED with cancelled_at = now and every row of its
    slot available; a second cancel, at any time, answers INVALID_STATUS
    and commits that same database. *)
Theorem cancel_confirmed_releases_once db b now now' :
  bookings_pkey db ->
  In b (bookings db) ->
  b_status b = CONFIRMED ->
  exists db1,
    call (cancel_booking now (b_user_id b) (b_id b)) db
    = (db1, Returned (success "Booking cancelled successfully"%string)) /\
    booking_has_status db1 (b_id b) CANCELLED /\
    (forall b1, In b1 (bookings db1) -> b_id b1 = b_id b ->
                b_cancelled_at b1 = Some now) /\
    slot_is_available db1 (b_slot_id b) true /\
    map s_id (slots db1) = map s_id (slots db) /\
    exists msg,
      call (cancel_booking now' (b_user_id b) (b_id b)) db1
      = (db1, Returned (failure INVALID_STATUS msg)).
Proof.
  intros Hpk Hb Hst.
  set (b1 := update_updated_at_column now (set_cancelled now b)).
  eexists. split.
  - rewrite call_cancel_booking, (find_booking_pkey _ _ Hpk Hb).
    cbv beta iota. unfold active. rewrite Hst. reflexivity.
  - split; [|split; [|split; [|split]]].
    + apply updated_booking_has_status; auto.
    + intros r' Hr' E. simpl in Hr'. apply in_update_where in Hr'.
      destruct Hr' as [r [Hr ->]].
      destruct (N.eqb_spec (b_id r) (b_id b)); [reflexivity|congruence].
    + apply released_slot_is_available.
    + simpl. apply map_update_where. reflexivity.
    + eexists. rewrite call_cancel_booking. simpl bookings.
      assert (Hb1 : In b1 (update_where (fun r => N.eqb (b_id r) (b_id b))
                        (fun r => update_updated_at_column now
                                    (set_cancelled now r)) (bookings db))).
      { apply in_update_where. exists b. rewrite N.eqb_refl. auto. }
      assert (Hpk1 : NoDup (map b_id (update_where
                        (fun r => N.eqb (b_id r) (b_id b))
                        (fun r => update_updated_at_column now
                                    (set_cancelled now r)) (bookings db)))).
      { rewrite map_update_where; auto. }
      pose proof (find_booking_pkey _ _ Hpk1 Hb1) as Hfind.
      simpl in Hfind. rewrite Hfind. reflexivity.
Qed.

Lemma cancel_confirmed_releases_once_witness :
  exists db1,
    call (cancel_booking (Scenario.t + Scenario.seconds 90)
            Scenario.requesterA Scenario.reservationA) Scenario.confirmed
    = (db1, Returned (success "Booking cancelled successfully"%string)) /\
    booking_has_status db1 Scenario.reservationA CANCELLED /\
    (forall b1, In b1 (bookings db1) -> b_id b1 = Scenario.reservationA ->
                b_cancelled_at b1 = Some (Scenario.t + Scenario.seconds 90)) /\
    slot_is_available db1 Scenario.slotS true /\
    map s_id (slots db1) = map s_id (slots Scenario.confirmed) /\
    exists msg,
      call (cancel_booking (Scenario.t + Scenario.seconds 95)
              Scenario.requesterA Scenario.reservationA) db1
      = (db1, Returned (failure INVALID_STATUS msg)).
Proof.
  apply (cancel_confirmed_releases_once Scenario.confirmed
           (update_updated_at_column (Scenario.t + Scenario.seconds 60)
              (set_confirmed (Scenario.t + Scenario.seconds 60)
                 (new_booking Scenario.reservationA Scenario.t
                    Scenario.requesterA Scenario.slotS Scenario.provider)))).
  - repeat constructor. simpl. tauto.
  - left. reflexivity.
  - reflexivity.
Defined.

(** C9.  For every database and every time, a second
    expire_pending_bookings at the same time, run on the database the
    first one committed, returns 0 and commits that same database. *)
Theorem sweep_is_idempotent db now :
  call (expire_pending_bookings now)
       (fst (call (expire_pending_bookings now) db))
  = (fst (call (expire_pending_bookings now) db), Returned 0).
Proof. apply sweep_again_later. auto. Qed.

(** C10.  When book_slot answers a failure, the committed database is
    the database it was called on, the error is SLOT_UNAVAILABLE,
    SLOT_LOCKED or SLOT_ALREADY_BOOKED, and BookingService.create throws
    a conflict over that unchanged database. *)
Theorem reserve_failure_changes_nothing locked new_id now u S db db' err msg :
  call (book_slot locked new_id now u S) db
  = (db', Returned (failure err msg)) ->
  db' = db /\ reserve_error err = true /\
  create locked new_id now u S db = (db, inl (conflict msg)).
Proof.
  intros H. unfold create. rewrite H. rewrite call_book_slot in H.
  case_find; [destruct p|]; repeat case_if; inversion H; subst; auto.
Qed.

Lemma reserve_failure_changes_nothing_witness :
  Scenario.swept = Scenario.swept /\
  reserve_error SLOT_ALREADY_BOOKED = true /\
  create [] Scenario.reservationB (Scenario.t + Scenario.seconds 122)
         Scenario.requesterB Scenario.slotS Scenario.swept
  = (Scenario.swept, inl (conflict msg_already_booked)).
Proof.
  apply (reserve_failure_changes_nothing [] Scenario.reservationB
           (Scenario.t + Scenario.seconds 122)
           Scenario.requesterB Scenario.slotS Scenario.swept).
  vm_compute. reflexivity.
Defined.

(** * Beyond the claims *)

(** ** When book_slot succeeds, and what it can raise *)

Lemma existsb_eqb_in (k : UUID) (l : list UUID) :
  existsb (N.eqb k) l = true <-> In k l.
Proof.
  rewrite existsb_exists. split.
  - intros [x [Hx E]]. apply N.eqb_eq in E. now subst.
  - intros H. exists k. split; [assumption|apply N.eqb_refl].
Qed.

Lemma in_slots_join_doctors db s d :
  In (s, d) (slots_join_doctors db) <->
  In s (slots db) /\ In d (doctors db) /\ s_doctor_id s = d_id d.
Proof.
  unfold slots_join_doctors. rewrite in_flat_map. split.
  - intros [s' [Hs' H]]. apply in_map_iff in H.
    destruct H as [d' [E Hd']]. inversion E; subst.
    apply filter_In in Hd'. destruct Hd' as [Hd' Hk].
    apply N.eqb_eq in Hk. auto.
  - intros [Hs [Hd Hk]]. exists s. split; [assumption|].
    apply in_map. apply filter_In. split; [assumption|].
    now apply N.eqb_eq.
Qed.

(** The five conditions [book_slot] needs. *)
Lemma reserve_succeeds_spec locked new_id now u S db :
  reserve_succeeds locked new_id now u S db <->
  (exists s d, In s (slots db) /\ In d (doctors db) /\ s_id s = S /\
               s_is_available s = true /\ s_doctor_id s = d_id d) /\
  ~ In S locked /\
  ~ In new_id (map b_id (bookings db)) /\
  ~ In S (map b_slot_id (bookings db)) /\
  In u (users db).
Proof.
  unfold reserve_succeeds. rewrite call_book_slot.
  destruct (find _ (slots_join_doctors db)) as [[v d]|] eqn:Hfind.
  - pose proof (find_some _ _ Hfind) as [Hin Hc]. simpl in Hc.
    apply andb_true_iff in Hc. destruct Hc as [Hid Hav].
    apply N.eqb_eq in Hid.
    apply in_slots_join_doctors in Hin. destruct Hin as [Hv [Hd Hk]].
    assert (Hslot : existsb (fun r => N.eqb (s_id r) S) (slots db) = true).
    { apply existsb_exists. exists v. split; [assumption|].
      now apply N.eqb_eq. }
    assert (Hdoc : existsb (fun r => N.eqb (d_id r) (s_doctor_id v))
                           (doctors db) = true).
    { apply existsb_exists. exists d. split; [assumption|].
      apply N.eqb_eq. auto. }
    rewrite Hslot, Hdoc, andb_true_r, andb_true_r, Hid.
    destruct (existsb (N.eqb S) locked) eqn:Hl.
    { split; [intros [db' [bk H]]; discriminate|].
      intros [_ [Hn _]]. apply existsb_eqb_in in Hl. tauto. }
    destruct (existsb (fun r => N.eqb (b_id r) new_id) (bookings db)) eqn:Hi.
    { split; [intros [db' [bk H]]; discriminate|].
      intros [_ [_ [Hn _]]]. apply existsb_key in Hi. tauto. }
    destruct (existsb (fun r => N.eqb (b_slot_id r) S) (bookings db)) eqn:Hs.
    { split; [intros [db' [bk H]]; discriminate|].
      intros [_ [_ [_ [Hn _]]]]. apply existsb_key in Hs. tauto. }
    simpl. destruct (existsb (N.eqb u) (users db)) eqn:Hu.
    + split; [|intros _; eexists; eexists; reflexivity].
      intros _. split; [exists v, d; auto|].
      split; [intros H; apply existsb_eqb_in in H; congruence|].
      split; [intros H; apply existsb_key in H; congruence|].
      split; [intros H; apply existsb_key in H; congruence|].
      now apply existsb_eqb_in.
    + split; [intros [db' [bk H]]; discriminate|].
      intros [_ [_ [_ [_ Hn]]]]. apply existsb_eqb_in in Hn. congruence.
  - split; [intros [db' [bk H]]; discriminate|].
    intros [[s [d [Hs [Hd [Hid [Hav Hk]]]]]] _].
    assert (Hin : In (s, d) (slots_join_doctors db))
      by (apply in_slots_join_doctors; auto).
    apply (find_none _ _ Hfind) in Hin. simpl in Hin.
    rewrite Hid, N.eqb_refl, Hav in Hin. discriminate.
Qed.

(** X1.  book_slot answers success exactly when some row of slots with
    that id is available and joins a doctor, no other transaction holds
    the lock of the slot, the drawn id is not a booking id, no row of
    bookings names the slot, and the requester is a row of users. *)
Theorem book_slot_succeeds_iff locked new_id now u S db :
  reserve_succeeds locked new_id now u S db <->
  (exists s d, In s (slots db) /\ In d (doctors db) /\ s_id s = S /\
               s_is_available s = true /\ s_doctor_id s = d_id d) /\
  ~ In S locked /\
  ~ In new_id (map b_id (bookings db)) /\
  ~ In S (map b_slot_id (bookings db)) /\
  In u (users db).
Proof. apply reserve_succeeds_spec. Qed.

(** X2.  The only condition that leaves book_slot is
    foreign_key_violation, for a requester that is no row of users;
    nothing is committed then, and lock_not_available and
    unique_violation never reach the caller. *)
Theorem book_slot_raises_only_foreign_key locked new_id now u S db db' e :
  call (book_slot locked new_id now u S) db = (db', Raised e) ->
  e = foreign_key_violation /\ db' = db /\ ~ In u (users db) /\
  create locked new_id now u S db
  = (db, inl (DatabaseError foreign_key_violation)).
Proof.
  intros H. unfold create. rewrite H. rewrite call_book_slot in H.
  destruct (find _ (slots_join_doctors db)) as [[v d]|] eqn:Hfind;
    [|discriminate].
  pose proof (find_some _ _ Hfind) as [Hin Hc]. simpl in Hc.
  apply andb_true_iff in Hc. destruct Hc as [Hid _]. apply N.eqb_eq in Hid.
  apply in_slots_join_doctors in Hin. destruct Hin as [Hv [Hd Hk]].
  assert (Hslot : existsb (fun r => N.eqb (s_id r) S) (slots db) = true).
  { apply existsb_exists. exists v. split; [assumption|]. now apply N.eqb_eq. }
  assert (Hdoc : existsb (fun r => N.eqb (d_id r) (s_doctor_id v))
                         (doctors db) = true).
  { apply existsb_exists. exists d. split; [assumption|].
    apply N.eqb_eq. auto. }
  rewrite Hslot, Hdoc, !andb_true_r in H.
  repeat case_if; inversion H; subst.
  repeat split; auto.
  intros Hu. apply existsb_eqb_in in Hu. congruence.
Qed.

Lemma book_slot_raises_only_foreign_key_witness :
  foreign_key_violation = foreign_key_violation /\
  Scenario.schedule = Scenario.schedule /\
  ~ In 3%N (users Scenario.schedule) /\
  create [] Scenario.reservationA Scenario.t 3%N Scenario.slotS
         Scenario.schedule
  = (Scenario.schedule, inl (DatabaseError foreign_key_violation)).
Proof.
  apply (book_slot_raises_only_foreign_key [] Scenario.reservationA
           Scenario.t 3%N Scenario.slotS Scenario.schedule).
  vm_compute. reflexivity.
Defined.

(** ** Who may confirm and cancel *)

(** X3.  When no row of bookings has both that id and that requester
    (an unknown id, or a booking of somebody else), confirm_booking and
    cancel_booking both answer BOOKING_NOT_FOUND and commit nothing. *)
Theorem not_owner_changes_nothing db now u id :
  (forall b, In b (bookings db) -> b_id b = id -> b_user_id b <> u) ->
  call (confirm_booking now u id) db
  = (db, Returned (failure BOOKING_NOT_FOUND "Booking not found")) /\
  call (cancel_booking now u id) db
  = (db, Returned (failure BOOKING_NOT_FOUND "Booking not found")).
Proof.
  intros Hno.
  assert (Hfind : find (fun b => N.eqb (b_id b) id && N.eqb (b_user_id b) u)
                       (bookings db) = None).
  { destruct (find _ (bookings db)) as [v|] eqn:Hf; [|reflexivity].
    apply find_booking_in in Hf. destruct Hf as [Hv [Hid Hu]].
    exfalso. now apply (Hno v). }
  rewrite call_confirm_booking, call_cancel_booking, Hfind. auto.
Qed.

Lemma not_owner_changes_nothing_witness :
  call (confirm_booking (Scenario.t + Scenario.seconds 10)
          Scenario.requesterB Scenario.reservationA) Scenario.reserved
  = (Scenario.reserved,
     Returned (failure BOOKING_NOT_FOUND "Booking not found")) /\
  call (cancel_booking (Scenario.t + Scenario.seconds 10)
          Scenario.requesterB Scenario.reservationA) Scenario.reserved
  = (Scenario.reserved,
     Returned (failure BOOKING_NOT_FOUND "Booking not found")).
Proof.
  apply (not_owner_changes_nothing Scenario.reserved).
  intros b [<-|[]] _. discriminate.
Defined.

(** ** The history of a booking *)

Lemma transition_refl a : transition a a = true.
Proof. destruct a; reflexivity. Qed.

Lemma transition_trans a b c :
  transition a b = true -> transition b c = true -> transition a c = true.
Proof. destruct a, b, c; simpl; congruence. Qed.

Lemma step_pkey db op : bookings_pkey db -> bookings_pkey (step db op).
Proof.
  unfold bookings_pkey. intros Hpk.
  destruct (step_bookings_keys db op) as [[E _]|[b [E [N1 _]]]].
  - now rewrite E.
  - rewrite E, map_app. simpl. now apply NoDup_snoc.
Qed.

Lemma update_where_history db (v : booking) set now :
  bookings_pkey db -> In v (bookings db) ->
  (forall r, inserted_columns (set r) = inserted_columns r) ->
  transition (b_status v) (b_status (set v)) = true ->
  exists f added,
    update_where (fun r => N.eqb (b_id r) (b_id v))
                 (fun r => update_updated_at_column now (set r)) (bookings db)
    = map f (bookings db) ++ added /\
    forall b, In b (bookings db) ->
      inserted_columns (f b) = inserted_columns b /\
      transition (b_status b) (b_status (f b)) = true.
Proof.
  intros Hpk Hv Hcols Htr.
  exists (fun r => if N.eqb (b_id r) (b_id v)
                   then update_updated_at_column now (set r) else r), [].
  split; [now rewrite app_nil_r|].
  intros b Hb. destruct (N.eqb_spec (b_id b) (b_id v)) as [E|E].
  - assert (b = v) by now apply (unique_key b_id (bookings db)).
    subst b. split; [apply (Hcols v)|exact Htr].
  - split; [reflexivity|apply transition_refl].
Qed.

Lemma step_bookings_history db op :
  bookings_pkey db ->
  exists f added,
    bookings (step db op) = map f (bookings db) ++ added /\
    forall b, In b (bookings db) ->
      inserted_columns (f b) = inserted_columns b /\
      transition (b_status b) (b_status (f b)) = true.
Proof.
  intros Hpk.
  assert (Hsame : forall added,
            exists f added',
              bookings db ++ added = map f (bookings db) ++ added' /\
              forall b, In b (bookings db) ->
                inserted_columns (f b) = inserted_columns b /\
                transition (b_status b) (b_status (f b)) = true).
  { intros added. exists (fun b => b), added. rewrite map_id.
    split; [reflexivity|]. intros b _.
    split; [reflexivity|apply transition_refl]. }
  assert (Hid : exists f added,
            bookings db = map f (bookings db) ++ added /\
            forall b, In b (bookings db) ->
              inserted_columns (f b) = inserted_columns b /\
              transition (b_status b) (b_status (f b)) = true).
  { destruct (Hsame []) as [f [added H]]. rewrite app_nil_r in H.
    exists f, added. exact H. }
  destruct op as [locked new_id now u s|now u id|now u id|now]; simpl.
  - destruct (call (book_slot locked new_id now u s) db) as [db' r] eqn:E.
    simpl. destruct r as [[bk|err msg]|e].
    + apply book_slot_success in E. destruct E as [v_doctor_id [-> _]].
      simpl. apply Hsame.
    + rewrite call_book_slot in E. case_find; [destruct p|];
        repeat case_if; inversion E; subst; assumption.
    + rewrite call_book_slot in E. case_find; [destruct p|];
        repeat case_if; inversion E; subst; assumption.
  - rewrite call_confirm_booking. case_find; [|assumption].
    match goal with H : find _ _ = Some _ |- _ =>
      apply find_booking_in in H; destruct H as [Hb [<- _]] end.
    case_if; [assumption|].
    match goal with H : negb _ = false |- _ =>
      apply negb_false_iff, booking_status_eqb_eq in H; rename H into Hst end.
    case_if; simpl; apply update_where_history; auto; rewrite Hst; reflexivity.
  - rewrite call_cancel_booking. case_find; [|assumption].
    match goal with H : find _ _ = Some _ |- _ =>
      apply find_booking_in in H; destruct H as [Hb [<- _]] end.
    case_if; [assumption|].
    match goal with H : negb _ = false |- _ =>
      apply negb_false_iff in H; rename H into Hact end.
    simpl. apply update_where_history; auto.
    unfold active in Hact. simpl. destruct (b_status b); auto; discriminate.
  - exists (fun r => if pending_and_expired now r
                     then update_updated_at_column now (set_failed r) else r),
           [].
    split; [now rewrite app_nil_r|].
    intros b Hb. destruct (pending_and_expired now b) eqn:Hpe.
    + apply pending_and_expired_true in Hpe. destruct Hpe as [Hst _].
      rewrite Hst. split; reflexivity.
    + split; [reflexivity|apply transition_refl].
Qed.

(** X4.  Under the primary key of bookings, after any sequence of
    reserve, confirm, cancel and sweepExpired calls the table is the old
    rows in their order, each updated in place, followed by the rows
    added: no row is deleted, id, user_id, slot_id, doctor_id, notes and
    created_at of a row never change, and its status has only moved
    along PENDING -> CONFIRMED, FAILED or CANCELLED and CONFIRMED ->
    CANCELLED, so FAILED and CANCELLED are final. *)
Theorem bookings_history db ops :
  bookings_pkey db ->
  exists f added,
    bookings (run db ops) = map f (bookings db) ++ added /\
    forall b, In b (bookings db) ->
      inserted_columns (f b) = inserted_columns b /\
      transition (b_status b) (b_status (f b)) = true.
Proof.
  revert db. induction ops as [|op ops IH]; simpl; intros db Hpk.
  - exists (fun b => b), []. rewrite map_id, app_nil_r.
    split; [reflexivity|]. intros b _.
    split; [reflexivity|apply transition_refl].
  - destruct (step_bookings_history db op Hpk) as [f [added [E Hf]]].
    destruct (IH (step db op) (step_pkey db op Hpk)) as [g [added' [E' Hg]]].
    exists (fun b => g (f b)), (map g added ++ added').
    split.
    + rewrite E', E, map_app, map_map, app_assoc. reflexivity.
    + intros b Hb. destruct (Hf b Hb) as [Hc Ht].
      assert (Hfb : In (f b) (bookings (step db op))).
      { rewrite E. apply in_app_iff. left. now apply in_map. }
      destruct (Hg (f b) Hfb) as [Hc' Ht']. split.
      * now rewrite Hc'.
      * eapply transition_trans; eassumption.
Qed.

Lemma bookings_history_witness :
  exists f added,
    bookings (run Scenario.reserved
                [confirm (Scenario.t + Scenario.seconds 60)
                         Scenario.requesterA Scenario.reservationA;
                 cancel (Scenario.t + Scenario.seconds 90)
                        Scenario.requesterA Scenario.reservationA;
                 sweepExpired (Scenario.t + Scenario.seconds 121)])
    = map f (bookings Scenario.reserved) ++ added /\
    forall b, In b (bookings Scenario.reserved) ->
      inserted_columns (f b) = inserted_columns b /\
      transition (b_status b) (b_status (f b)) = true.
Proof.
  apply (bookings_history Scenario.reserved).
  repeat constructor. simpl. tauto.
Defined.

(** The four operations write [is_available] and [bookings] only. *)
Lemma run_tables_spec db ops :
  map (set_is_available true) (slots (run db ops))
  = map (set_is_available true) (slots db) /\
  users (run db ops) = users db /\ doctors (run db ops) = doctors db.
Proof.
  revert db. induction ops as [|op ops IH]; simpl; intros db; [auto|].
  destruct (IH (step db op)) as [Es [Eu Ed]]. rewrite Es, Eu, Ed. clear.
  assert (Hupd : forall cond v,
            map (set_is_available true)
                (update_where cond (set_is_available v) (slots db))
            = map (set_is_available true) (slots db)).
  { intros cond v. unfold update_where. rewrite map_map.
    apply map_ext. intros s. destruct (cond s); reflexivity. }
  destruct op as [locked new_id now u s|now u id|now u id|now]; simpl.
  - rewrite call_book_slot. case_find; [destruct p|]; repeat case_if;
      simpl; auto.
  - rewrite call_confirm_booking. case_find; repeat case_if; simpl; auto.
  - rewrite call_cancel_booking. case_find; repeat case_if; simpl; auto.
  - auto.
Qed.

(** X5.  No sequence of reserve, confirm, cancel and sweepExpired calls
    adds, removes or reorders a row of slots or changes any of its
    columns except is_available, and none touches users or doctors. *)
Theorem slots_keep_all_but_flag db ops :
  map (set_is_available true) (slots (run db ops))
  = map (set_is_available true) (slots db) /\
  users (run db ops) = users db /\ doctors (run db ops) = doctors db.
Proof. apply run_tables_spec. Qed.

(** ** The confirmation window *)

Lemma update_pending_expires_after_window us ds sl cond set
    (t : list booking) :
  (forall b, In b t -> b_status b = PENDING ->
             b_expires_at b = Some (b_created_at b + INTERVAL_2_minutes)) ->
  (forall r, b_status (set r) <> PENDING) ->
  pending_expires_after_window
    (mkDatabase us ds sl (update_where cond set t)).
Proof.
  intros Ht Hset b' Hb'. simpl in Hb'. apply in_update_where in Hb'.
  destruct Hb' as [r [Hr ->]]. destruct (cond r); [|auto].
  intros H. now apply Hset in H.
Qed.

Lemma step_pending_expires_after_window db op :
  pending_expires_after_window db ->
  pending_expires_after_window (step db op).
Proof.
  intros Hinv.
  destruct op as [locked new_id now u s|now u id|now u id|now]; simpl.
  - destruct (call (book_slot locked new_id now u s) db) as [db' r] eqn:E.
    simpl. destruct r as [[bk|err msg]|e].
    + apply book_slot_success in E. destruct E as [v_doctor_id [-> _]].
      intros b Hb. simpl in Hb. apply in_app_iff in Hb.
      destruct Hb as [Hb|[<-|[]]]; [now apply Hinv|reflexivity].
    + rewrite call_book_slot in E. case_find; [destruct p|];
        repeat case_if; inversion E; subst; assumption.
    + rewrite call_book_slot in E. case_find; [destruct p|];
        repeat case_if; inversion E; subst; assumption.
  - rewrite call_confirm_booking. case_find; [|assumption].
    case_if; [assumption|].
    case_if; simpl; apply update_pending_expires_after_window; auto;
      discriminate.
  - rewrite call_cancel_booking. case_find; [|assumption].
    case_if; [assumption|].
    simpl; apply update_pending_expires_after_window; auto; discriminate.
  - apply update_pending_expires_after_window; auto; discriminate.
Qed.

(** X6.  If every PENDING booking expires exactly two minutes after its
    created_at, this still holds after any sequence of reserve, confirm,
    cancel and sweepExpired calls: reserve sets the deadline that way
    and no operation moves the deadline of a PENDING booking. *)
Theorem pending_expires_after_window_preserved db ops :
  pending_expires_after_window db ->
  pending_expires_after_window (run db ops).
Proof.
  revert db. induction ops as [|op ops IH]; simpl; intros db H; [assumption|].
  apply IH. now apply step_pending_expires_after_window.
Qed.

Lemma pending_expires_after_window_preserved_witness :
  pending_expires_after_window
    (run Scenario.schedule
       [reserve [] Scenario.reservationA Scenario.t
                Scenario.requesterA Scenario.slotS;
        sweepExpired (Scenario.t + Scenario.seconds 60)]).
Proof.
  apply (pending_expires_after_window_preserved Scenario.schedule).
  intros b Hb. simpl in Hb. contradiction.
Defined.

(** X7.  Right after a successful reserve at [now], under the primary
    key of bookings, the requester's confirm of the new booking at
    [now'] succeeds if and only if [now' <= now + 2 minutes]. *)
Theorem reserve_then_confirm locked new_id now u S db db1 bk now' :
  bookings_pkey db ->
  call (book_slot locked new_id now u S) db = (db1, Returned (success bk)) ->
  (confirm_succeeds now' u (j_id bk) db1 <-> now' <= now + INTERVAL_2_minutes).
Proof.
  intros Hpk Hok. apply book_slot_success in Hok.
  destruct Hok as [v_doctor_id [-> [-> [Hfresh _]]]].
  unfold confirm_succeeds. rewrite call_confirm_booking. simpl bookings.
  set (nb := new_booking new_id now u S v_doctor_id).
  assert (Hpk1 : NoDup (map b_id (bookings db ++ [nb]))).
  { rewrite map_app. simpl. now apply NoDup_snoc. }
  assert (Hnb : In nb (bookings db ++ [nb])).
  { apply in_app_iff. right. now left. }
  pose proof (find_booking_pkey _ _ Hpk1 Hnb) as Hfind.
  simpl in Hfind. rewrite Hfind. simpl.
  destruct (Z.ltb_spec (now + INTERVAL_2_minutes) now'); simpl.
  - split; [intros [payload H']; discriminate|lia].
  - split; [intros _; assumption|intros _; eexists; reflexivity].
Qed.

Lemma reserve_then_confirm_witness :
  confirm_succeeds (Scenario.t + Scenario.seconds 60) Scenario.requesterA
                   (j_id Scenario.reservationA_json) Scenario.reserved <->
  Scenario.t + Scenario.seconds 60 <= Scenario.t + INTERVAL_2_minutes.
Proof.
  apply (reserve_then_confirm [] Scenario.reservationA Scenario.t
           Scenario.requesterA Scenario.slotS Scenario.schedule).
  - constructor.
  - vm_compute. reflexivity.
Defined.

(** ** Cancelling and confirming in the other states *)

(** X8.  Under the primary key of bookings, the owner's cancel of a
    PENDING booking succeeds at any time, also after its deadline has
    passed: cancel_booking does not look at expires_at.  The booking
    becomes CANCELLED, keeps its expires_at, and every row of its slot
    becomes available. *)
Theorem cancel_pending_whatever_the_deadline db b now :
  bookings_pkey db ->
  In b (bookings db) ->
  b_status b = PENDING ->
  exists db1,
    call (cancel_booking now (b_user_id b) (b_id b)) db
    = (db1, Returned (success "Booking cancelled successfully"%string)) /\
    booking_has_status db1 (b_id b) CANCELLED /\
    (forall b1, In b1 (bookings db1) -> b_id b1 = b_id b ->
                b_expires_at b1 = b_expires_at b /\
                b_cancelled_at b1 = Some now) /\
    slot_is_available db1 (b_slot_id b) true.
Proof.
  intros Hpk Hb Hst. eexists. split.
  - rewrite call_cancel_booking, (find_booking_pkey _ _ Hpk Hb).
    cbv beta iota. unfold active. rewrite Hst. reflexivity.
  - split; [|split].
    + apply updated_booking_has_status; auto.
    + intros r' Hr' E. simpl in Hr'. apply in_update_where in Hr'.
      destruct Hr' as [r [Hr ->]].
      destruct (N.eqb_spec (b_id r) (b_id b)) as [Er|Er]; [|congruence].
      assert (r = b) by now apply (unique_key b_id (bookings db)).
      subst r. auto.
    + apply released_slot_is_available.
Qed.

Lemma cancel_pending_whatever_the_deadline_witness :
  exists db1,
    call (cancel_booking (Scenario.t + Scenario.seconds 500)
            Scenario.requesterA Scenario.reservationA) Scenario.reserved
    = (db1, Returned (success "Booking cancelled successfully"%string)) /\
    booking_has_status db1 Scenario.reservationA CANCELLED /\
    (forall b1, In b1 (bookings db1) -> b_id b1 = Scenario.reservationA ->
                b_expires_at b1 = Some (Scenario.t + INTERVAL_2_minutes) /\
                b_cancelled_at b1 = Some (Scenario.t + Scenario.seconds 500)) /\
    slot_is_available db1 Scenario.slotS true.
Proof.
  apply (cancel_pending_whatever_the_deadline Scenario.reserved
           (new_booking Scenario.reservationA Scenario.t Scenario.requesterA
                        Scenario.slotS Scenario.provider)).
  - repeat constructor. simpl. tauto.
  - left. reflexivity.
  - reflexivity.
Defined.

(** X9.  Under the primary key of bookings, the owner's confirm of a
    booking that is not PENDING, and the owner's cancel of a booking
    that is FAILED or CANCELLED, answer INVALID_STATUS with a message
    that ends in the current status, and commit nothing. *)
Theorem wrong_status_changes_nothing db b now :
  bookings_pkey db ->
  In b (bookings db) ->
  (b_status b <> PENDING ->
   call (confirm_booking now (b_user_id b) (b_id b)) db
   = (db, Returned (failure INVALID_STATUS
            (String.append "Booking cannot be confirmed. Current status: "
                           (booking_status_text (b_status b)))))) /\
  (active b = false ->
   call (cancel_booking now (b_user_id b) (b_id b)) db
   = (db, Returned (failure INVALID_STATUS
            (String.append "Booking cannot be cancelled. Current status: "
                           (booking_status_text (b_status b)))))).
Proof.
  intros Hpk Hb. split; intros Hst.
  - rewrite call_confirm_booking, (find_booking_pkey _ _ Hpk Hb).
    cbv beta iota.
    destruct (booking_status_eqb (b_status b) PENDING) eqn:E;
      [|reflexivity].
    apply booking_status_eqb_eq in E. contradiction.
  - rewrite call_cancel_booking, (find_booking_pkey _ _ Hpk Hb).
    cbv beta iota. rewrite Hst. reflexivity.
Qed.

Lemma wrong_status_changes_nothing_witness :
  (FAILED <> PENDING ->
   call (confirm_booking (Scenario.t + Scenario.seconds 130)
           Scenario.requesterA Scenario.reservationA) Scenario.swept
   = (Scenario.swept,
      Returned (failure INVALID_STATUS
        "Booking cannot be confirmed. Current status: FAILED"))) /\
  (false = false ->
   call (cancel_booking (Scenario.t + Scenario.seconds 130)
           Scenario.requesterA Scenario.reservationA) Scenario.swept
   = (Scenario.swept,
      Returned (failure INVALID_STATUS
        "Booking cannot be cancelled. Current status: FAILED"))).
Proof.
  apply (wrong_status_changes_nothing Scenario.swept
           (update_updated_at_column (Scenario.t + Scenario.seconds 121)
              (set_failed
                 (new_booking Scenario.reservationA Scenario.t
                    Scenario.requesterA Scenario.slotS Scenario.provider)))).
  - repeat constructor. simpl. tauto.
  - left. reflexivity.
Defined.

(** ** What the sweeper counts and what it leaves alone *)

Lemma NoDup_map_filter {R} (key : R -> UUID) (cond : R -> bool) (t : list R) :
  NoDup (map key t) -> NoDup (map key (filter cond t)).
Proof.
  induction t as [|r t IH]; simpl; intros Hnd; [constructor|].
  inversion Hnd as [|? ? Hnotin Hnd']; subst.
  destruct (cond r); [|auto]. simpl. constructor; [|auto].
  intros Hin. apply Hnotin. apply in_map_iff in Hin.
  destruct Hin as [x [Ex Hx]]. apply filter_In in Hx.
  rewrite <- Ex. apply in_map. tauto.
Qed.

(** X10.  When slots.id is a key, no two bookings name the same slot
    and every booking names a slot that exists, the number
    expire_pending_bookings returns (the rows of slots it updated) is the
    number of bookings it moved from PENDING to FAILED. *)
Theorem sweep_counts_the_expired db now :
  slots_pkey db ->
  unique_active_booking db ->
  bookings_fkeys db ->
  snd (call (expire_pending_bookings now) db)
  = Returned (Z.of_nat (List.length (filter (pending_and_expired now)
                                            (bookings db)))).
Proof.
  intros Hsl Hun Hfk. rewrite call_expire_pending_bookings. simpl.
  do 2 f_equal.
  rewrite <- (length_map s_id (filter (in_expired now db) (slots db))).
  rewrite <- (length_map b_slot_id (filter (pending_and_expired now)
                                           (bookings db))).
  apply Nat.le_antisymm; apply NoDup_incl_length.
  - now apply NoDup_map_filter.
  - intros k Hk. apply in_map_iff in Hk. destruct Hk as [s [<- Hs]].
    apply filter_In in Hs. destruct Hs as [_ Hs].
    unfold in_expired in Hs. now apply existsb_eqb_in in Hs.
  - now apply NoDup_map_filter.
  - intros k Hk. pose proof Hk as Hk'. apply in_map_iff in Hk.
    destruct Hk as [b [<- Hb]]. apply filter_In in Hb.
    destruct Hb as [Hb _]. destruct (Hfk b Hb) as [Hslot _].
    apply in_map_iff in Hslot. destruct Hslot as [s [Es Hs]].
    rewrite <- Es. apply in_map. apply filter_In. split; [assumption|].
    unfold in_expired. apply existsb_eqb_in. rewrite Es. exact Hk'.
Qed.

Lemma sweep_counts_the_expired_witness :
  snd (call (expire_pending_bookings (Scenario.t + Scenario.seconds 121))
            Scenario.reserved)
  = Returned (Z.of_nat (List.length
      (filter (pending_and_expired (Scenario.t + Scenario.seconds 121))
              (bookings Scenario.reserved)))).
Proof.
  apply (sweep_counts_the_expired Scenario.reserved).
  - repeat constructor. simpl. tauto.
  - repeat constructor. simpl. tauto.
  - intros b [<-|[]]. simpl. tauto.
Defined.

(** X11.  With no two bookings on the same slot, the sweeper leaves a
    booking that is not PENDING, or whose deadline is unset or not
    before [now], exactly as it is, together with every row of its
    slot. *)
Theorem sweep_spares_the_unexpired db now b :
  unique_active_booking db ->
  In b (bookings db) ->
  b_status b <> PENDING \/ not_past_deadline now b ->
  In b (bookings (fst (call (expire_pending_bookings now) db))) /\
  forall s, In s (slots db) -> s_id s = b_slot_id b ->
            In s (slots (fst (call (expire_pending_bookings now) db))).
Proof.
  intros Hun Hb Hok. rewrite call_expire_pending_bookings. simpl.
  assert (Hpe : pending_and_expired now b = false).
  { destruct (pending_and_expired now b) eqn:E; [|reflexivity].
    apply pending_and_expired_true in E. destruct E as [Hst [e [He Hlt]]].
    destruct Hok as [Hok|Hok]; [contradiction|].
    specialize (Hok e He). lia. }
  split.
  - apply in_update_where. exists b. rewrite Hpe. auto.
  - intros s Hs Es. apply in_update_where. exists s. split; [assumption|].
    destruct (in_expired now db s) eqn:Hexp; [|reflexivity].
    apply in_expired_true in Hexp. destruct Hexp as [b0 [Hb0 [Hpe0 Hs0]]].
    assert (b0 = b)
      by (apply (unique_key b_slot_id (bookings db)); auto; congruence).
    subst b0. congruence.
Qed.

Lemma sweep_spares_the_unexpired_witness :
  In (new_booking Scenario.reservationA Scenario.t Scenario.requesterA
                  Scenario.slotS Scenario.provider)
     (bookings (fst (call (expire_pending_bookings
                             (Scenario.t + Scenario.seconds 120))
                          Scenario.reserved))) /\
  forall s, In s (slots Scenario.reserved) -> s_id s = Scenario.slotS ->
            In s (slots (fst (call (expire_pending_bookings
                                      (Scenario.t + Scenario.seconds 120))
                                   Scenario.reserved))).
Proof.
  apply (sweep_spares_the_unexpired Scenario.reserved
           (Scenario.t + Scenario.seconds 120)
           (new_booking Scenario.reservationA Scenario.t Scenario.requesterA
                        Scenario.slotS Scenario.provider)).
  - repeat constructor. simpl. tauto.
  - left. reflexivity.
  - right. intros e He. inversion He. vm_compute. discriminate.
Defined.

(** ** bookingService.js: getById, confirm and cancel *)

Lemma in_bookings_join db r :
  In r (bookings_join db) <->
  In (r_booking r) (bookings db) /\
  In (r_slot r) (slots db) /\ b_slot_id (r_booking r) = s_id (r_slot r) /\
  In (r_doctor r) (doctors db) /\
  b_doctor_id (r_booking r) = d_id (r_doctor r) /\
  In (r_user r) (users db) /\ b_user_id (r_booking r) = r_user r.
Proof.
  destruct r as [b s d u]. unfold bookings_join. simpl.
  rewrite in_flat_map. split.
  - intros [b' [Hb' H]]. apply in_flat_map in H. destruct H as [s' [Hs' H]].
    apply in_flat_map in H. destruct H as [d' [Hd' H]].
    apply in_map_iff in H. destruct H as [u' [E Hu']].
    inversion E; subst.
    apply filter_In in Hs', Hd', Hu'.
    destruct Hs' as [Hs' Es], Hd' as [Hd' Ed], Hu' as [Hu' Eu].
    apply N.eqb_eq in Es, Ed, Eu. auto 10.
  - intros [Hb [Hs [Es [Hd [Ed [Hu Eu]]]]]].
    exists b. split; [assumption|].
    apply in_flat_map. exists s. split.
    { apply filter_In. split; [assumption|now apply N.eqb_eq]. }
    apply in_flat_map. exists d. split.
    { apply filter_In. split; [assumption|now apply N.eqb_eq]. }
    apply in_map. apply filter_In. split; [assumption|now apply N.eqb_eq].
Qed.

(** The row [getById] returns is a row of the join that passes its
    WHERE clause. *)
Lemma getById_returns u id adm db r :
  BookingService.getById u id adm db = inr r ->
  In r (bookings_join db) /\ b_id (r_booking r) = id /\
  (adm = false -> b_user_id (r_booking r) = u).
Proof.
  unfold BookingService.getById.
  destruct (filter _ (bookings_join db)) as [|r0 rows] eqn:Hf; [discriminate|].
  intros E. inversion E; subst r0.
  assert (Hin : In r (filter
             (fun r => N.eqb (b_id (r_booking r)) id
                       && (adm || N.eqb (b_user_id (r_booking r)) u))
             (bookings_join db))) by (rewrite Hf; now left).
  apply filter_In in Hin. destruct Hin as [Hin Hc].
  apply andb_true_iff in Hc. destruct Hc as [Hid Hu].
  apply N.eqb_eq in Hid. split; [assumption|]. split; [assumption|].
  intros ->. simpl in Hu. now apply N.eqb_eq in Hu.
Qed.

(** A booking whose slot, doctor and user exist is found by its owner
    and by an administrator. *)
Lemma getById_finds u adm db b :
  In b (bookings db) ->
  In (b_slot_id b) (map s_id (slots db)) ->
  In (b_doctor_id b) (map d_id (doctors db)) ->
  In (b_user_id b) (users db) ->
  adm = true \/ b_user_id b = u ->
  exists r, BookingService.getById u (b_id b) adm db = inr r.
Proof.
  intros Hb Hs Hd Hu Hown.
  apply in_map_iff in Hs. destruct Hs as [s [Es Hs]].
  apply in_map_iff in Hd. destruct Hd as [d [Ed Hd]].
  unfold BookingService.getById.
  destruct (filter _ (bookings_join db)) as [|r0 rows] eqn:Hf;
    [|eexists; reflexivity].
  exfalso.
  assert (Hin : In (mkBookingRow b s d (b_user_id b))
                   (filter
                      (fun r => N.eqb (b_id (r_booking r)) (b_id b)
                                && (adm || N.eqb (b_user_id (r_booking r)) u))
                      (bookings_join db))).
  { apply filter_In. split.
    - apply in_bookings_join. simpl. auto 10.
    - simpl. rewrite N.eqb_refl. simpl.
      destruct Hown as [->| ->]; [reflexivity|].
      rewrite N.eqb_refl. apply orb_true_r. }
  rewrite Hf in Hin. contradiction.
Qed.

(** What [confirm] of the service does once [confirm_booking] has
    succeeded. *)
Lemma confirm_then_getById db now u id db' payload :
  bookings_fkeys db ->
  call (confirm_booking now u id) db = (db', Returned (success payload)) ->
  exists r,
    BookingService.getById u id false db' = inr r /\
    b_id (r_booking r) = id /\ b_user_id (r_booking r) = u /\
    b_status (r_booking r) = CONFIRMED /\
    b_confirmed_at (r_booking r) = Some now /\
    b_expires_at (r_booking r) = None /\
    In (r_slot r) (slots db) /\ s_id (r_slot r) = b_slot_id (r_booking r).
Proof.
  intros Hfk E. rewrite call_confirm_booking in E.
  destruct (find _ (bookings db)) as [v|] eqn:Hfind; [|discriminate].
  apply find_booking_in in Hfind. destruct Hfind as [Hv [Hid Hu]].
  repeat case_if; inversion E; subst db' payload; clear E.
  destruct (Hfk v Hv) as [Hs [Hd Hus]].
  set (v' := update_updated_at_column now (set_confirmed now v)).
  set (db' := mkDatabase _ _ _ _).
  assert (Hv' : In v' (bookings db')).
  { apply in_update_where. exists v. rewrite Hid, N.eqb_refl. auto. }
  destruct (getById_finds u false db' v' Hv' Hs Hd Hus (or_intror Hu))
    as [r Hr].
  simpl in Hr. rewrite Hid in Hr. exists r. split; [assumption|].
  apply getById_returns in Hr. destruct Hr as [Hin [Hrid Hru]].
  apply in_bookings_join in Hin.
  destruct Hin as [Hrb [Hrs [Ers _]]].
  simpl in Hrb. apply in_update_where in Hrb.
  destruct Hrb as [x [Hx Ex]].
  destruct (N.eqb_spec (b_id x) id) as [Eid|Nid].
  - specialize (Hru eq_refl). rewrite Ex in Hru, Ers |- *.
    simpl in Hru, Ers, Hrs |- *. auto 10.
  - rewrite Ex in Hrid. contradiction.
Qed.



(** X13.  When every booking names a slot, a doctor and a user that
    exist and BookingService.confirm throws, then either it threw 404
    or 400 and committed nothing, or it threw 409 and has committed the
    expiry: the booking is FAILED and every row of its slot is
    available. *)
Theorem service_confirm_throws db now u id db' t :
  bookings_fkeys db ->
  BookingService.confirm now u id db = (db', inl t) ->
  (db' = db /\ (t = notFound "Booking not found" \/
                exists msg, t = badRequest msg)) \/
  (t = conflict msg_expired /\ booking_has_status db' id FAILED /\
   exists b, In b (bookings db) /\ b_id b = id /\ b_user_id b = u /\
             slot_is_available db' (b_slot_id b) true).
Proof.
  intros Hfk. unfold BookingService.confirm.
  destruct (call (confirm_booking now u id) db) as [db1 o] eqn:E.
  destruct o as [[payload|err msg]|e].
  - destruct (confirm_then_getById _ _ _ _ _ _ Hfk E) as [r [Hr _]].
    rewrite Hr. discriminate.
  - rewrite call_confirm_booking in E.
    destruct (find _ (bookings db)) as [v|] eqn:Hfind.
    + apply find_booking_in in Hfind. destruct Hfind as [Hv [Hid Hu]].
      repeat case_if; inversion E; subst; intros H; inversion H; subst.
      * left. split; [reflexivity|]. right. eexists. reflexivity.
      * right. split; [reflexivity|]. split.
        -- apply updated_booking_has_status; auto.
        -- exists v. repeat split; auto. apply released_slot_is_available.
    + inversion E; subst. intros H; inversion H; subst. auto.
  - rewrite call_confirm_booking in E.
    case_find; repeat case_if; discriminate.
Qed.

Lemma service_confirm_throws_witness :
  (fst (BookingService.confirm (Scenario.t + Scenario.seconds 121)
          Scenario.requesterA Scenario.reservationA Scenario.reserved)
   = Scenario.reserved /\
   (conflict msg_expired = notFound "Booking not found" \/
    exists msg, conflict msg_expired = badRequest msg)) \/
  (conflict msg_expired = conflict msg_expired /\
   booking_has_status
     (fst (BookingService.confirm (Scenario.t + Scenario.seconds 121)
             Scenario.requesterA Scenario.reservationA Scenario.reserved))
     Scenario.reservationA FAILED /\
   exists b, In b (bookings Scenario.reserved) /\
             b_id b = Scenario.reservationA /\
             b_user_id b = Scenario.requesterA /\
             slot_is_available
               (fst (BookingService.confirm
                       (Scenario.t + Scenario.seconds 121)
                       Scenario.requesterA Scenario.reservationA
                       Scenario.reserved))
               (b_slot_id b) true).
Proof.
  apply (service_confirm_throws Scenario.reserved
           (Scenario.t + Scenario.seconds 121)
           Scenario.requesterA Scenario.reservationA).
  - intros b [<-|[]]. simpl. tauto.
  - vm_compute. reflexivity.
Defined.



(** X15.  When BookingService.cancel throws it has committed nothing,
    and what it throws is 404 for a booking that is not the caller's or
    400 for one that is FAILED or CANCELLED. *)
Theorem service_cancel_throws db now u id db' t :
  BookingService.cancel now u id db = (db', inl t) ->
  db' = db /\
  (t = notFound "Booking not found" \/ exists msg, t = badRequest msg).
Proof.
  unfold BookingService.cancel. rewrite call_cancel_booking.
  case_find; repeat case_if; intros H; inversion H; subst; eauto.
Qed.

Lemma service_cancel_throws_witness :
  Scenario.swept = Scenario.swept /\
  (badRequest "Booking cannot be cancelled. Current status: FAILED"
   = notFound "Booking not found" \/
   exists msg,
     badRequest "Booking cannot be cancelled. Current status: FAILED"
     = badRequest msg).
Proof.
  apply (service_cancel_throws Scenario.swept
           (Scenario.t + Scenario.seconds 130)
           Scenario.requesterA Scenario.reservationA).
  vm_compute. reflexivity.
Defined.

(** ** slotService.js: create and delete *)

Lemma overlaps_spec s start_time end_time :
  s_start_time s < s_end_time s ->
  start_time < end_time ->
  (SlotService.overlaps s start_time end_time = true <->
   s_start_time s < end_time /\ start_time < s_end_time s).
Proof.
  intros Hs Hn. unfold SlotService.overlaps.
  rewrite !orb_true_iff, !andb_true_iff, !Z.leb_le, !Z.ltb_lt, !Z.gtb_lt,
    !Z.geb_le.
  lia.
Qed.

(** X16.  For a slot and a new interval that both end after they start,
    the three-way test of the overlap check holds exactly when the two
    half-open intervals [start_time, end_time) meet. *)
Theorem overlap_check_is_interval_intersection s start_time end_time :
  s_start_time s < s_end_time s ->
  start_time < end_time ->
  (SlotService.overlaps s start_time end_time = true <->
   s_start_time s < end_time /\ start_time < s_end_time s).
Proof. apply overlaps_spec. Qed.

Lemma overlap_check_is_interval_intersection_witness :
  SlotService.overlaps
    (mkSlot Scenario.slotS Scenario.provider 100 200 true 0) 199 300 = true <->
  100 < 300 /\ 199 < 200.
Proof.
  apply (overlap_check_is_interval_intersection
           (mkSlot Scenario.slotS Scenario.provider 100 200 true 0) 199 300).
  - reflexivity.
  - reflexivity.
Defined.


(** What [create] knows when it reaches the INSERT. *)
Lemma create_reaches_insert is_active new_id now doctor_id start_time
    end_time db db' r :
  SlotService.create is_active new_id now doctor_id start_time end_time db
  = (db', r) ->
  (forall st msg, r <> SlotService.rejected st msg) ->
  In doctor_id (map d_id (doctors db)) /\
  (forall s, In s (slots db) -> s_doctor_id s = doctor_id ->
             SlotService.overlaps s start_time end_time = false) /\
  match SlotService.insert_into_slots
          (mkSlot new_id doctor_id start_time end_time true now) db with
  | inl db1 =>
      db' = db1 /\
      r = SlotService.resolved
            (mkSlot new_id doctor_id start_time end_time true now)
  | inr code => db' = db /\ r = SlotService.query_error code
  end.
Proof.
  unfold SlotService.create. intros E Hr.
  destruct (filter _ (doctors db)) as [|d ds] eqn:Hd.
  { inversion E; subst. exfalso. eapply Hr. reflexivity. }
  destruct (filter _ (slots db)) as [|s0 ss] eqn:Hs.
  2:{ inversion E; subst. exfalso. eapply Hr. reflexivity. }
  split; [|split].
  - assert (Hin : In d (filter (fun d => N.eqb (d_id d) doctor_id
                                         && is_active (d_id d)) (doctors db)))
      by (rewrite Hd; now left).
    apply filter_In in Hin. destruct Hin as [Hin Hc].
    apply andb_true_iff in Hc. destruct Hc as [Hc _]. apply N.eqb_eq in Hc.
    rewrite <- Hc. now apply in_map.
  - intros s Hin Hdoc.
    destruct (SlotService.overlaps s start_time end_time) eqn:Ho;
      [|reflexivity].
    assert (Hf : In s (filter (fun s => N.eqb (s_doctor_id s) doctor_id
                         && SlotService.overlaps s start_time end_time)
                         (slots db))).
    { apply filter_In. split; [assumption|].
      rewrite Ho, Hdoc, N.eqb_refl. reflexivity. }
    rewrite Hs in Hf. contradiction.
  - destruct (SlotService.insert_into_slots _ db); inversion E; auto.
Qed.







(** X19.  When every booking names rows that exist and the availability
    invariant holds, a create that resolves keeps both, and the slot it
    made can be reserved at once: book_slot on it succeeds for every
    requester in users, with no lock held and a new booking id. *)
Theorem created_slot_can_be_booked is_active new_id now doctor_id start_time
    end_time db db' s :
  bookings_fkeys db ->
  availability_invariant db ->
  SlotService.create is_active new_id now doctor_id start_time end_time db
  = (db', SlotService.resolved s) ->
  bookings_fkeys db' /\ availability_invariant db' /\
  forall u bid now',
    In u (users db) -> ~ In bid (map b_id (bookings db)) ->
    reserve_succeeds [] bid now' u (s_id s) db'.
Proof.
  intros Hfk Hinv E.
  apply create_reaches_insert in E; [|discriminate].
  destruct E as [Hdoc [_ E]].
  unfold SlotService.insert_into_slots in E. simpl in E.
  destruct (end_time >? start_time); simpl in E; [|destruct E; discriminate].
  destruct (existsb (fun r => N.eqb (s_id r) new_id) (slots db)) eqn:Hid;
    simpl in E; [destruct E; discriminate|].
  repeat case_if; destruct E as [-> E]; inversion E; subst; clear E.
  assert (Hfresh : ~ In new_id (map s_id (slots db))).
  { intros H. apply existsb_key in H. congruence. }
  assert (Hnone : forall b, In b (bookings db) -> b_slot_id b <> new_id).
  { intros b Hb E. destruct (Hfk b Hb) as [Hs _]. congruence. }
  split; [|split].
  - intros b Hb. simpl in Hb |- *. destruct (Hfk b Hb) as [Hs [Hd Hu]].
    split; [|auto]. rewrite map_app, in_app_iff. now left.
  - intros s' Hs'. simpl in Hs' |- *. apply in_app_iff in Hs'.
    destruct Hs' as [Hs'|[<-|[]]]; [now apply Hinv|].
    simpl. split; [|reflexivity]. intros _ b Hb E.
    exfalso. now apply (Hnone b).
  - intros u bid now' Hu Hbid. apply reserve_succeeds_spec. simpl.
    apply in_map_iff in Hdoc. destruct Hdoc as [d [Ed Hd]].
    split; [|split; [|split; [|split]]]; auto.
    + exists (mkSlot new_id doctor_id start_time end_time true now), d.
      simpl. split; [apply in_app_iff; right; now left|auto].
    + intros H. apply in_map_iff in H. destruct H as [b [Eb Hb]].
      now apply (Hnone b).
Qed.

Lemma created_slot_can_be_booked_witness :
  bookings_fkeys
    (fst (SlotService.create (fun _ => true) 101%N Scenario.t
            Scenario.provider (Scenario.t + Scenario.seconds 5400)
            (Scenario.t + Scenario.seconds 7200) Scenario.swept)) /\
  availability_invariant
    (fst (SlotService.create (fun _ => true) 101%N Scenario.t
            Scenario.provider (Scenario.t + Scenario.seconds 5400)
            (Scenario.t + Scenario.seconds 7200) Scenario.swept)) /\
  forall u bid now',
    In u (users Scenario.swept) ->
    ~ In bid (map b_id (bookings Scenario.swept)) ->
    reserve_succeeds [] bid now' u
      (s_id (mkSlot 101%N Scenario.provider
                    (Scenario.t + Scenario.seconds 5400)
                    (Scenario.t + Scenario.seconds 7200) true Scenario.t))
      (fst (SlotService.create (fun _ => true) 101%N Scenario.t
              Scenario.provider (Scenario.t + Scenario.seconds 5400)
              (Scenario.t + Scenario.seconds 7200) Scenario.swept)).
Proof.
  apply (created_slot_can_be_booked (fun _ => true) 101%N Scenario.t
           Scenario.provider (Scenario.t + Scenario.seconds 5400)
           (Scenario.t + Scenario.seconds 7200) Scenario.swept).
  - intros b [<-|[]]. simpl. tauto.
  - apply availability_check_sound. vm_compute. reflexivity.
  - vm_compute. reflexivity.
Defined.

(** X20.  From a database where every booking names rows that exist and
    the availability invariant holds, delete keeps both.  It resolves
    only for a slot that exists, has no PENDING or CONFIRMED booking
    and is therefore available; it then removes every row of the slot
    and every booking that names it, and nothing else.  When it throws,
    nothing is changed. *)
Theorem delete_only_released_slots id db db' r :
  bookings_fkeys db ->
  availability_invariant db ->
  SlotService.delete id db = (db', r) ->
  bookings_fkeys db' /\ availability_invariant db' /\
  match r with
  | SlotService.resolved _ =>
      In id (map s_id (slots db)) /\
      (forall b, In b (bookings db) -> b_slot_id b = id -> active b = false) /\
      slot_is_available db id true /\
      slots db' = filter (fun s => negb (N.eqb (s_id s) id)) (slots db) /\
      bookings db'
      = filter (fun b => negb (N.eqb (b_slot_id b) id)) (bookings db) /\
      ~ In id (map s_id (slots db')) /\
      ~ In id (map b_slot_id (bookings db'))
  | _ => db' = db
  end.
Proof.
  intros Hfk Hinv. unfold SlotService.delete.
  destruct (filter _ (bookings db)) as [|b0 bs] eqn:Hact.
  2:{ intros E. inversion E; subst. auto. }
  destruct (filter _ (slots db)) as [|s0 ss] eqn:Hslot.
  { intros E. inversion E; subst. auto. }
  intros E. inversion E; subst; clear E.
  assert (Hnoact : forall b, In b (bookings db) -> b_slot_id b = id ->
                             active b = false).
  { intros b Hb Eb. destruct (active b) eqn:Ha; [|reflexivity].
    assert (Hin : In b (filter (fun b => N.eqb (b_slot_id b) id && active b)
                               (bookings db))).
    { apply filter_In. split; [assumption|].
      rewrite Eb, N.eqb_refl, Ha. reflexivity. }
    rewrite Hact in Hin. contradiction. }
  split; [|split].
  - intros b Hb. simpl in Hb |- *. apply filter_In in Hb.
    destruct Hb as [Hb Hne]. apply negb_true_iff, N.eqb_neq in Hne.
    destruct (Hfk b Hb) as [Hs [Hd Hu]]. split; [|auto].
    apply in_map_iff in Hs. destruct Hs as [s [Es Hs]].
    rewrite <- Es. apply in_map. apply filter_In. split; [assumption|].
    apply negb_true_iff, N.eqb_neq. congruence.
  - intros s Hs. simpl in Hs |- *. apply filter_In in Hs.
    destruct Hs as [Hs Hne]. apply negb_true_iff, N.eqb_neq in Hne.
    rewrite (Hinv s Hs). split.
    + intros H b Hb Eb. apply filter_In in Hb. destruct Hb as [Hb _]. auto.
    + intros H b Hb Eb. apply H; [|assumption].
      apply filter_In. split; [assumption|].
      apply negb_true_iff, N.eqb_neq. congruence.
  - repeat split; auto.
    + assert (Hin : In s0 (filter (fun s => N.eqb (s_id s) id) (slots db)))
        by (rewrite Hslot; now left).
      apply filter_In in Hin. destruct Hin as [Hin Eid].
      apply N.eqb_eq in Eid. rewrite <- Eid. now apply in_map.
    + intros s Hs Es. apply (Hinv s Hs). intros b Hb Eb.
      apply Hnoact; congruence.
    + simpl. intros H. apply in_map_iff in H. destruct H as [s [Es Hs]].
      apply filter_In in Hs. destruct Hs as [_ Hne].
      rewrite Es, N.eqb_refl in Hne. discriminate.
    + simpl. intros H. apply in_map_iff in H. destruct H as [b [Eb Hb]].
      apply filter_In in Hb. destruct Hb as [_ Hne].
      rewrite Eb, N.eqb_refl in Hne. discriminate.
Qed.

Lemma delete_only_released_slots_witness :
  bookings_fkeys (fst (SlotService.delete Scenario.slotS Scenario.swept)) /\
  availability_invariant
    (fst (SlotService.delete Scenario.slotS Scenario.swept)) /\
  (In Scenario.slotS (map s_id (slots Scenario.swept)) /\
   (forall b, In b (bookings Scenario.swept) ->
              b_slot_id b = Scenario.slotS -> active b = false) /\
   slot_is_available Scenario.swept Scenario.slotS true /\
   slots (fst (SlotService.delete Scenario.slotS Scenario.swept))
   = filter (fun s => negb (N.eqb (s_id s) Scenario.slotS))
            (slots Scenario.swept) /\
   bookings (fst (SlotService.delete Scenario.slotS Scenario.swept))
   = filter (fun b => negb (N.eqb (b_slot_id b) Scenario.slotS))
            (bookings Scenario.swept) /\
   ~ In Scenario.slotS
        (map s_id (slots (fst (SlotService.delete Scenario.slotS
                                 Scenario.swept)))) /\
   ~ In Scenario.slotS
        (map b_slot_id
           (bookings (fst (SlotService.delete Scenario.slotS
                             Scenario.swept))))).
Proof.
  apply (delete_only_released_slots Scenario.slotS Scenario.swept
           (fst (SlotService.delete Scenario.slotS Scenario.swept))
           (SlotService.resolved "Slot deleted successfully"%string)).
  - intros b [<-|[]]. simpl. tauto.
  - apply availability_check_sound. vm_compute. reflexivity.
  - vm_compute. reflexivity.
Defined.




(** ** Which error book_slot answers *)

Lemma find_slot_open S db :
  find (fun sd => N.eqb (s_id (fst sd)) S && s_is_available (fst sd))
       (slots_join_doctors db) = None <-> ~ slot_open S db.
Proof.
  split.
  - intros Hnone [s [d [Hs [Hd [Hid [Hav Hk]]]]]].
    assert (Hin : In (s, d) (slots_join_doctors db))
      by (apply in_slots_join_doctors; auto).
    apply (find_none _ _ Hnone) in Hin. simpl in Hin.
    rewrite Hid, N.eqb_refl, Hav in Hin. discriminate.
  - intros Hno. destruct (find _ (slots_join_doctors db)) as [[v d]|] eqn:Hf;
      [|reflexivity].
    exfalso. apply Hno. apply find_some in Hf. destruct Hf as [Hin Hc].
    simpl in Hc. apply andb_true_iff in Hc. destruct Hc as [Hid Hav].
    apply N.eqb_eq in Hid. apply in_slots_join_doctors in Hin.
    exists v, d. tauto.
Qed.

(** X22.  book_slot answers SLOT_UNAVAILABLE exactly when no row of
    slots with that id is available and joins a doctor, whoever holds
    locks; SLOT_LOCKED exactly when there is such a row and another
    transaction holds its lock; SLOT_ALREADY_BOOKED exactly when there
    is such a row, no lock, and the drawn id is a booking id or a row
    of bookings, of whatever status, names the slot. *)
Theorem book_slot_error_table locked new_id now u S db :
  (reserve_fails_with locked new_id now u S db SLOT_UNAVAILABLE <->
   ~ slot_open S db) /\
  (reserve_fails_with locked new_id now u S db SLOT_LOCKED <->
   slot_open S db /\ In S locked) /\
  (reserve_fails_with locked new_id now u S db SLOT_ALREADY_BOOKED <->
   slot_open S db /\ ~ In S locked /\
   (In new_id (map b_id (bookings db)) \/
    In S (map b_slot_id (bookings db)))).
Proof.
  unfold reserve_fails_with. rewrite call_book_slot.
  pose proof (find_slot_open S db) as Hopen.
  destruct (find _ (slots_join_doctors db)) as [[v d]|] eqn:Hfind.
  - assert (Ho : slot_open S db).
    { apply find_some in Hfind. destruct Hfind as [Hin Hc].
      simpl in Hc. apply andb_true_iff in Hc. destruct Hc as [Hid Hav].
      apply N.eqb_eq in Hid. apply in_slots_join_doctors in Hin.
      exists v, d. tauto. }
    assert (Hid : s_id v = S).
    { apply find_some in Hfind. destruct Hfind as [_ Hc]. simpl in Hc.
      apply andb_true_iff in Hc. destruct Hc as [Hid _].
      now apply N.eqb_eq in Hid. }
    rewrite Hid.
    destruct (existsb (N.eqb S) locked) eqn:Hl.
    { apply existsb_eqb_in in Hl.
      split; [|split]; (split; [intros [msg H]; inversion H|]); try tauto.
      intros _. eexists. reflexivity. }
    assert (Hnl : ~ In S locked).
    { intros H. apply existsb_eqb_in in H. congruence. }
    destruct (existsb (fun r => N.eqb (b_id r) new_id) (bookings db)
              || existsb (fun r => N.eqb (b_slot_id r) S) (bookings db))
      eqn:Hb.
    { apply orb_true_iff in Hb. rewrite !existsb_key in Hb.
      split; [|split]; (split; [intros [msg H]; inversion H|]); try tauto.
      intros _. eexists. reflexivity. }
    apply orb_false_iff in Hb. destruct Hb as [Hb1 Hb2].
    assert (Hn1 : ~ In new_id (map b_id (bookings db))).
    { intros H. apply existsb_key in H. congruence. }
    assert (Hn2 : ~ In S (map b_slot_id (bookings db))).
    { intros H. apply existsb_key in H. congruence. }
    case_if; (split; [|split]);
      (split; [intros [msg H]; inversion H|]); tauto.
  - assert (Hno : ~ slot_open S db) by now apply Hopen.
    split; [|split]; (split; [intros [msg H]; inversion H|]); try tauto.
    intros _. eexists. reflexivity.
Qed.

(** ** The doctor of a booking, and deleting a doctor *)

(** A slot row after an operation is a slot row from before, up to its
    flag. *)
Lemma step_slot_origin db op s' :
  In s' (slots (step db op)) ->
  exists s, In s (slots db) /\ s_id s' = s_id s /\
            s_doctor_id s' = s_doctor_id s.
Proof.
  intros Hs'. destruct (run_tables_spec db [op]) as [E _]. simpl in E.
  apply (in_map (set_is_available true)) in Hs'. rewrite E in Hs'.
  apply in_map_iff in Hs'. destruct Hs' as [s [Es Hs]].
  exists s. split; [assumption|]. inversion Es. auto.
Qed.

Lemma step_slots_pkey db op : slots_pkey db -> slots_pkey (step db op).
Proof.
  unfold slots_pkey. intros H.
  destruct (run_tables_spec db [op]) as [E _]. simpl in E.
  assert (E' : map s_id (slots (step db op)) = map s_id (slots db)).
  { apply (f_equal (map s_id)) in E. rewrite !map_map in E. exact E. }
  now rewrite E'.
Qed.

(** A booking row after an operation is a row from before with the
    columns of its INSERT unchanged, or the row [book_slot] made from a
    slot row. *)
Lemma step_booking_origin db op b' :
  In b' (bookings (step db op)) ->
  (exists b, In b (bookings db) /\ inserted_columns b' = inserted_columns b) \/
  (exists v, In v (slots db) /\ b_slot_id b' = s_id v /\
             b_doctor_id b' = s_doctor_id v).
Proof.
  assert (Hupd : forall cond set,
            (forall r, inserted_columns (set r) = inserted_columns r) ->
            In b' (update_where cond set (bookings db)) ->
            exists b, In b (bookings db) /\
                      inserted_columns b' = inserted_columns b).
  { intros cond set Hset H. apply in_update_where in H.
    destruct H as [r [Hr ->]]. exists r. split; [assumption|].
    destruct (cond r); auto. }
  assert (Hsame : In b' (bookings db) ->
            exists b, In b (bookings db) /\
                      inserted_columns b' = inserted_columns b).
  { intros H. exists b'. auto. }
  destruct op as [locked new_id now u s|now u id|now u id|now]; simpl.
  - rewrite call_book_slot.
    destruct (find _ (slots_join_doctors db)) as [[v d]|] eqn:Hfind;
      [|auto].
    repeat case_if; simpl; auto.
    intros H. apply in_app_iff in H. destruct H as [H|[<-|[]]]; [auto|].
    right. exists v. apply find_some in Hfind. destruct Hfind as [Hin Hc].
    simpl in Hc. apply andb_true_iff in Hc. destruct Hc as [Hid _].
    apply N.eqb_eq in Hid. apply in_slots_join_doctors in Hin.
    simpl. intuition congruence.
  - rewrite call_confirm_booking. case_find; repeat case_if; simpl; auto;
      intros H; left; eapply Hupd; try eassumption; reflexivity.
  - rewrite call_cancel_booking. case_find; repeat case_if; simpl; auto;
      intros H; left; eapply Hupd; try eassumption; reflexivity.
  - intros H. left. eapply Hupd; try eassumption. reflexivity.
Qed.

Lemma step_doctor_id_of_slot db op :
  slots_pkey db -> doctor_id_of_slot db -> doctor_id_of_slot (step db op).
Proof.
  intros Hpk Hinv b' s' Hb' Hs' E.
  apply step_slot_origin in Hs'. destruct Hs' as [s [Hs [Es Ed]]].
  apply step_booking_origin in Hb'.
  destruct Hb' as [[b [Hb Ec]]|[v [Hv [Ev Edv]]]].
  - unfold inserted_columns in Ec. inversion Ec.
    rewrite Ed. replace (b_doctor_id b') with (b_doctor_id b) by congruence.
    apply Hinv; auto. congruence.
  - assert (v = s)
      by (apply (unique_key s_id (slots db)); auto; congruence).
    subst v. congruence.
Qed.

(** X23.  When slots.id is a key and the doctor_id of every booking is
    the doctor_id of its slot, this still holds after any sequence of
    reserve, confirm, cancel and sweepExpired calls: book_slot copies
    the doctor from the slot row it locked and nothing rewrites it. *)
Theorem doctor_id_of_slot_preserved db ops :
  slots_pkey db -> doctor_id_of_slot db -> doctor_id_of_slot (run db ops).
Proof.
  revert db. induction ops as [|op ops IH]; simpl; intros db Hpk H;
    [assumption|].
  apply IH; [now apply step_slots_pkey|now apply step_doctor_id_of_slot].
Qed.

Lemma doctor_id_of_slot_preserved_witness :
  doctor_id_of_slot
    (run Scenario.schedule
       [reserve [] Scenario.reservationA Scenario.t
                Scenario.requesterA Scenario.slotS;
        confirm (Scenario.t + Scenario.seconds 60)
                Scenario.requesterA Scenario.reservationA]).
Proof.
  apply (doctor_id_of_slot_preserved Scenario.schedule).
  - repeat constructor. simpl. tauto.
  - intros b s [].
Defined.

(** X24.  From a database where every booking names rows that exist,
    carries the doctor of its slot, and the availability invariant
    holds: DoctorService.delete of a doctor that exists removes the
    doctor, exactly the slots of that doctor and exactly the bookings of
    that doctor, whatever their status (it does not look for PENDING or
    CONFIRMED bookings), and what is left still has both properties;
    for a doctor that does not exist it throws and changes nothing. *)
Theorem delete_doctor_cascades id db db' r :
  bookings_fkeys db ->
  doctor_id_of_slot db ->
  availability_invariant db ->
  DoctorService.delete id db = (db', r) ->
  bookings_fkeys db' /\ availability_invariant db' /\
  match r with
  | SlotService.resolved _ =>
      In id (map d_id (doctors db)) /\
      ~ In id (map d_id (doctors db')) /\
      (forall s, In s (slots db') <->
                 In s (slots db) /\ s_doctor_id s <> id) /\
      (forall b, In b (bookings db') <->
                 In b (bookings db) /\ b_doctor_id b <> id)
  | _ => db' = db
  end.
Proof.
  intros Hfk Hdoc Hinv. unfold DoctorService.delete.
  destruct (filter _ (doctors db)) as [|d0 ds] eqn:Hd.
  { intros E. inversion E; subst. auto. }
  intros E. inversion E; subst; clear E.
  assert (Hslots : forall s,
            In s (filter (fun s => negb (N.eqb (s_doctor_id s) id)) (slots db))
            <-> In s (slots db) /\ s_doctor_id s <> id).
  { intros s. rewrite filter_In, negb_true_iff, N.eqb_neq. tauto. }
  assert (Hbook : forall b,
            In b (filter
                    (fun b =>
                       negb (N.eqb (b_doctor_id b) id)
                       && negb (existsb
                                  (fun s => N.eqb (s_id s) (b_slot_id b)
                                            && N.eqb (s_doctor_id s) id)
                                  (slots db)))
                    (bookings db))
            <-> In b (bookings db) /\ b_doctor_id b <> id).
  { intros b. rewrite filter_In, andb_true_iff, !negb_true_iff, N.eqb_neq.
    split; [tauto|]. intros [Hb Hne]. repeat split; auto.
    apply not_true_iff_false. intros Hex. apply existsb_exists in Hex.
    destruct Hex as [s [Hs Hc]]. apply andb_true_iff in Hc.
    destruct Hc as [H1 H2]. apply N.eqb_eq in H1, H2.
    apply Hne. rewrite (Hdoc b s Hb Hs); auto. }
  split; [|split].
  - intros b Hb. simpl in Hb |- *. apply Hbook in Hb. destruct Hb as [Hb Hne].
    destruct (Hfk b Hb) as [Hs [Hdd Hu]]. split; [|split; [|assumption]].
    + apply in_map_iff in Hs. destruct Hs as [s [Es Hs]].
      rewrite <- Es. apply in_map. apply Hslots. split; [assumption|].
      rewrite <- (Hdoc b s Hb Hs); auto.
    + apply in_map_iff in Hdd. destruct Hdd as [d [Ed Hdd]].
      rewrite <- Ed. apply in_map. apply filter_In. split; [assumption|].
      apply negb_true_iff, N.eqb_neq. congruence.
  - intros s Hs. simpl in Hs |- *. apply Hslots in Hs.
    destruct Hs as [Hs Hne]. rewrite (Hinv s Hs). split.
    + intros H b Hb Eb. apply Hbook in Hb. destruct Hb as [Hb _]. auto.
    + intros H b Hb Eb. apply H; [|assumption]. apply Hbook.
      split; [assumption|]. rewrite (Hdoc b s Hb Hs); auto.
  - simpl. split; [|split; [|split]]; auto.
    + assert (Hin : In d0 (filter (fun d => N.eqb (d_id d) id) (doctors db)))
        by (rewrite Hd; now left).
      apply filter_In in Hin. destruct Hin as [Hin Eid].
      apply N.eqb_eq in Eid. rewrite <- Eid. now apply in_map.
    + intros H. apply in_map_iff in H. destruct H as [d [Ed Hdd]].
      apply filter_In in Hdd. destruct Hdd as [_ Hne].
      rewrite Ed, N.eqb_refl in Hne. discriminate.
Qed.

Lemma delete_doctor_cascades_witness :
  bookings_fkeys (fst (DoctorService.delete Scenario.provider
                         Scenario.confirmed)) /\
  availability_invariant (fst (DoctorService.delete Scenario.provider
                                 Scenario.confirmed)) /\
  (In Scenario.provider (map d_id (doctors Scenario.confirmed)) /\
   ~ In Scenario.provider
        (map d_id (doctors (fst (DoctorService.delete Scenario.provider
                                   Scenario.confirmed)))) /\
   (forall s, In s (slots (fst (DoctorService.delete Scenario.provider
                                  Scenario.confirmed))) <->
              In s (slots Scenario.confirmed) /\
              s_doctor_id s <> Scenario.provider) /\
   (forall b, In b (bookings (fst (DoctorService.delete Scenario.provider
                                     Scenario.confirmed))) <->
              In b (bookings Scenario.confirmed) /\
              b_doctor_id b <> Scenario.provider)).
Proof.
  apply (delete_doctor_cascades Scenario.provider Scenario.confirmed
           (fst (DoctorService.delete Scenario.provider Scenario.confirmed))
           (SlotService.resolved "Doctor deleted successfully"%string)).
  - intros b [<-|[]]. simpl. tauto.
  - intros b s [<-|[]] [<-|[]] _. reflexivity.
  - apply availability_check_sound. vm_compute. reflexivity.
  - vm_compute. reflexivity.
Defined.

(** ** The two readers of the deadline *)

(** X25.  Under the primary key of bookings, for a PENDING booking and
    any time: its owner's confirm answers BOOKING_EXPIRED exactly when
    the sweeper run at that time, instead, would leave the booking
    FAILED.  The late confirm and the sweeper apply the same test. *)
Theorem late_confirm_agrees_with_sweeper db b now :
  bookings_pkey db ->
  In b (bookings db) ->
  b_status b = PENDING ->
  (snd (call (confirm_booking now (b_user_id b) (b_id b)) db)
   = Returned (failure BOOKING_EXPIRED msg_expired) <->
   booking_has_status (fst (call (expire_pending_bookings now) db))
                      (b_id b) FAILED).
Proof.
  intros Hpk Hb Hst.
  assert (Hpe : pending_and_expired now b
                = is_true (timestamptz_lt (b_expires_at b)
                                          (@Some timestamptz now))).
  { unfold pending_and_expired. rewrite Hst. simpl.
    destruct (timestamptz_lt (b_expires_at b) (Some now)) as [[|]|];
      reflexivity. }
  rewrite call_confirm_booking, (find_booking_pkey _ _ Hpk Hb).
  cbv beta iota. rewrite Hst. simpl negb. cbv iota. rewrite <- Hpe.
  rewrite call_expire_pending_bookings. simpl fst.
  destruct (pending_and_expired now b) eqn:E.
  - split; [intros _|reflexivity]. split; simpl.
    + exists (update_updated_at_column now (set_failed b)).
      split; [|reflexivity]. apply in_update_where. exists b.
      rewrite E. auto.
    + intros b' Hb' Eid. apply in_update_where in Hb'.
      destruct Hb' as [r [Hr ->]].
      assert (r = b).
      { apply (unique_key b_id (bookings db)); auto.
        destruct (pending_and_expired now r); exact Eid. }
      subst r. rewrite E. reflexivity.
  - split; [discriminate|]. intros [_ H]. exfalso.
    assert (Hin : In b (bookings
                          (mkDatabase (users db) (doctors db)
                             (update_where (in_expired now db)
                                (set_is_available true) (slots db))
                             (update_where (pending_and_expired now)
                                (fun b => update_updated_at_column now
                                            (set_failed b))
                                (bookings db))))).
    { simpl. apply in_update_where. exists b. rewrite E. auto. }
    specialize (H b Hin eq_refl). congruence.
Qed.

Lemma late_confirm_agrees_with_sweeper_witness :
  snd (call (confirm_booking (Scenario.t + Scenario.seconds 121)
               Scenario.requesterA Scenario.reservationA) Scenario.reserved)
  = Returned (failure BOOKING_EXPIRED msg_expired) <->
  booking_has_status
    (fst (call (expire_pending_bookings (Scenario.t + Scenario.seconds 121))
               Scenario.reserved))
    Scenario.reservationA FAILED.
Proof.
  apply (late_confirm_agrees_with_sweeper Scenario.reserved
           (new_booking Scenario.reservationA Scenario.t Scenario.requesterA
                        Scenario.slotS Scenario.provider)).
  - repeat constructor. simpl. tauto.
  - left. reflexivity.
  - reflexivity.
Defined.
